(** * Zeno capture engine: a shallow embedding of [internal/pkg/crawl/capture.go]

    The three functions of [capture.go] ([executeGET], [captureAsset],
    [Capture]) and [deleteTempFile] are written as programs of a small
    monad that threads the world (request objects, temp files, shared
    counters, the seencheck table) and appends a log of the observable
    actions (requests issued, WARC writes, file removals, warnings, ...).
    The collaborators that live outside the file (HTTP clients, the WARC
    writer, goquery, the link extractors) are fields of an environment
    record [Env]; the theorems hold for all environments, except the one
    that runs the code on the demonstration environment. *)

From stdpp Require Import gmap strings list fin_maps.
From Stdlib Require Import ZArith DecimalString Ascii String.

#[local] Set Warnings "-clear-no-such-hyp".

Local Open Scope string_scope.
Local Open Scope list_scope.
Local Open Scope Z_scope.

(** ** Go machine integers *)

(** [int] and [int64] on the 64-bit targets of the crawler: two's
    complement wrap-around of a mathematical integer. *)
Definition wrap_int64 (z : Z) : Z := (z + 2 ^ 63) mod 2 ^ 64 - 2 ^ 63.

Definition in_int64 (z : Z) : Prop := - 2 ^ 63 <= z < 2 ^ 63.

(** ** Strings *)

Fixpoint has_prefix (p s : string) : bool :=
  match p, s with
  | EmptyString, _ => true
  | String _ _, EmptyString => false
  | String a p', String b s' => Ascii.eqb a b && has_prefix p' s'
  end.

(** [strings.Contains(s, substr)] *)
Fixpoint strings_Contains (s substr : string) : bool :=
  has_prefix substr s ||
  match s with
  | EmptyString => false
  | String _ s' => strings_Contains s' substr
  end.

(** [strconv.FormatUint(n, 10)] *)
Definition FormatUint (n : N) : string := NilZero.string_of_uint (N.to_uint n).

Definition to_upper (a : ascii) : ascii :=
  let n := nat_of_ascii a in
  if ((97 <=? n) && (n <=? 122))%nat then ascii_of_nat (n - 32) else a.

Definition to_lower (a : ascii) : ascii :=
  let n := nat_of_ascii a in
  if ((65 <=? n) && (n <=? 90))%nat then ascii_of_nat (n + 32) else a.

Fixpoint canonical_from (upper : bool) (s : string) : string :=
  match s with
  | EmptyString => EmptyString
  | String a s' =>
      String (if upper then to_upper a else to_lower a)
             (canonical_from (Ascii.eqb a "-") s')
  end.

(** [textproto.CanonicalMIMEHeaderKey] on keys made of token characters
    (all the keys used by [capture.go] are): first letter and every letter
    after a hyphen in upper case, the others in lower case. *)
Definition CanonicalHeaderKey (s : string) : string := canonical_from true s.

Definition error := string.

(** ** The data of [net/url], [net/http] and [frontier] used by the code *)

Module url.
(** A parsed URL: the host and the text [URL.String()] renders. *)
Record URL := mkURL { Host : string; String : string }.
End url.

Module http.
(** A header keeps one value per canonical key: [Set] replaces the
    value, [Get] returns it, or the empty string. *)
Definition Header_Get (h : gmap string string) (key : string) : string :=
  default "" (h !! CanonicalHeaderKey key).

Definition Header_Set (h : gmap string string) (key value : string)
  : gmap string string :=
  <[CanonicalHeaderKey key := value]> h.

Record Request := mkRequest {
  Method : string;
  URL : url.URL;
  Header : gmap string string
}.

Definition Request_Header_Set (r : Request) (key value : string) : Request :=
  {| Method := Method r; URL := URL r;
     Header := Header_Set (Header r) key value |}.

(** [Request.AddCookie]: cookies are joined with a semicolon and a
    space in the one [Cookie] header. *)
Definition Request_AddCookie (r : Request) (cookie : string) : Request :=
  let old := Header_Get (Header r) "Cookie" in
  if String.eqb old "" then Request_Header_Set r "Cookie" cookie
  else Request_Header_Set r "Cookie" (old ++ "; " ++ cookie)%string.

(** What a client answers, before it is tied to the request object. *)
Record Reply := mkReply {
  reply_StatusCode : Z;
  reply_Header : gmap string string;
  reply_Cookies : list string;
  reply_Body : string
}.

(** [Request] is a pointer into the store of request objects: the
    request that was sent to obtain the response. *)
Record Response := mkResponse {
  StatusCode : Z;
  RespHeader : gmap string string;
  Cookies : list string;
  Body : string;
  Request_of : nat
}.

Definition Response_of_Reply (r : Reply) (req : nat) : Response :=
  {| StatusCode := reply_StatusCode r; RespHeader := reply_Header r;
     Cookies := reply_Cookies r; Body := reply_Body r; Request_of := req |}.

Inductive Client := mkClient (name : string).
End http.

#[local] Set Warnings "-register-all".

Module frontier.
(** [frontier.Item] as [capture.go] reads and writes it. [Hop] is a
    [uint8], [Redirect] an [int], [Hash] a [uint64]; [ParentItem] is a
    pointer that is nil for a seed. *)
Inductive Item := mkItem {
  URL : url.URL;
  ParentItem : option Item;
  Type_ : string;
  Hop : Z;
  Redirect : Z;
  Hash : N
}.

Definition set_Redirect (i : Item) (r : Z) : Item :=
  {| URL := URL i; ParentItem := ParentItem i; Type_ := Type_ i;
     Hop := Hop i; Redirect := r; Hash := Hash i |}.
End frontier.

Inductive Document := mkDocument (markup : string).

(** The fields of [Crawl] that [capture.go] reads. The counters
    [c.Crawled] and [c.Frontier.QueueCount] and the seencheck table are
    shared mutable objects: they live in the world below. *)
Record Crawl := mkCrawl {
  Client : http.Client;
  ClientProxied : option http.Client;
  BypassProxy : list string;
  UserAgent : string;
  MaxHops : Z;
  MaxRedirect : Z;
  Seencheck : bool;
  WARC : bool
}.

(** ** The world *)

Record World := mkWorld {
  requests : list http.Request;      (* the [*http.Request] objects *)
  files : gset string;               (* temp files on disk *)
  Crawled : Z;                       (* [c.Crawled] *)
  QueueCount : Z;                    (* [c.Frontier.QueueCount] *)
  SeencheckDB : gmap string string;  (* [c.Frontier.Seencheck] *)
  issued : nat                       (* requests sent so far *)
}.

Definition set_requests (w : World) (rs : list http.Request) : World :=
  {| requests := rs; files := files w; Crawled := Crawled w;
     QueueCount := QueueCount w; SeencheckDB := SeencheckDB w;
     issued := issued w |}.

Definition set_files (w : World) (fs : gset string) : World :=
  {| requests := requests w; files := fs; Crawled := Crawled w;
     QueueCount := QueueCount w; SeencheckDB := SeencheckDB w;
     issued := issued w |}.

Definition set_Crawled (w : World) (n : Z) : World :=
  {| requests := requests w; files := files w; Crawled := n;
     QueueCount := QueueCount w; SeencheckDB := SeencheckDB w;
     issued := issued w |}.

Definition set_QueueCount (w : World) (n : Z) : World :=
  {| requests := requests w; files := files w; Crawled := Crawled w;
     QueueCount := n; SeencheckDB := SeencheckDB w; issued := issued w |}.

Definition set_SeencheckDB (w : World) (db : gmap string string) : World :=
  {| requests := requests w; files := files w; Crawled := Crawled w;
     QueueCount := QueueCount w; SeencheckDB := db; issued := issued w |}.

Definition set_issued (w : World) (n : nat) : World :=
  {| requests := requests w; files := files w; Crawled := Crawled w;
     QueueCount := QueueCount w; SeencheckDB := SeencheckDB w; issued := n |}.

(** ** The collaborators *)

(** Everything [capture.go] calls and does not define. The clients, the
    WARC writer and the file system answer as a function of the current
    world, so the same request may be answered differently at different
    times. [isRedirection], [StringContainsSliceElements], the two link
    extractors and the item hash belong to other files of the crawler. *)
Record Env := mkEnv {
  client_Do : World -> http.Client -> http.Request -> http.Reply + error;
  writeWARC_result : World -> http.Response -> string * option error;
  url_Parse : string -> url.URL + error;
  os_Open : World -> string -> option error;
  NewDocumentFromReader : World -> string -> Document + error;
  NewDocumentFromResponse : World -> http.Response -> Document + error;
  extractOutlinks : url.URL -> Document -> list url.URL + error;
  extractAssets : url.URL -> Document -> list url.URL + error;
  isRedirection : Z -> bool;
  StringContainsSliceElements : string -> list string -> bool;
  item_hash : url.URL -> N
}.

(** ** Observable actions *)

(** The log of a run. Beside the effects on the outside (a request
    sent, a WARC record written, a file opened, parsed or removed, a
    warning, a counter moved) it records the calls of [executeGET] and
    of [captureAsset] with their arguments, so that properties of the
    recursion and of the asset loop can be read off it. [EvDo] holds the
    request object as it is at the moment it is sent. The rate and the
    number of active workers that the asset warning also reports are
    left out. *)

Inductive Event :=
| EvExecuteGET (item : frontier.Item) (req : nat)
| EvDo (client : http.Client) (ref : nat) (req : http.Request)
| EvWriteWARC (resp : http.Response) (path : string) (err : option error)
| EvCrawledIncr (n : Z)
| EvQueueCountIncr (n : Z)
| EvBodyClose (resp : http.Response)
| EvRemove (path : string) (err : option error)
| EvWarning (msg : string) (err : error)
| EvAssetWarning (asset : string) (err : error) (queued crawled : Z)
                 (parent_hop : Z) (parent_url : string)
| EvCrawlSuccess (status : Z) (item : frontier.Item)
| EvOpen (path : string) (err : option error)
| EvParseFile (path : string) (res : Document + error)
| EvParseResponse (resp : http.Response) (res : Document + error)
| EvExtractOutlinks (base : url.URL) (doc : Document)
                    (res : list url.URL + error)
| EvExtractAssets (base : url.URL) (doc : Document)
                  (res : list url.URL + error)
| EvGoQueueOutlinks (outlinks : list url.URL) (item : frontier.Item)
| EvCaptureAsset (item : frontier.Item) (cookies : list string)
| EvIsSeen (hash : string) (found : bool)
| EvSeen (hash : string) (type : string).

(** ** The monad of crawler programs *)

(** A program either returns, panics (a nil pointer is dereferenced) or
    runs out of the fuel that bounds the recursion of [executeGET]. *)
Inductive Outcome (A : Type) : Type :=
| Returns (a : A) (w : World) (log : list Event)
| Panics (msg : string) (w : World) (log : list Event)
| OutOfFuel.

Arguments Returns {A} a w log.
Arguments Panics {A} msg w log.
Arguments OutOfFuel {A}.

Definition M (A : Type) : Type := World -> Outcome A.

Definition ret {A} (a : A) : M A := fun w => Returns a w [].

Definition bind {A B} (m : M A) (k : A -> M B) : M B :=
  fun w =>
    match m w with
    | Returns a w1 l1 =>
        match k a w1 with
        | Returns b w2 l2 => Returns b w2 (l1 ++ l2)
        | Panics msg w2 l2 => Panics msg w2 (l1 ++ l2)
        | OutOfFuel => OutOfFuel
        end
    | Panics msg w1 l1 => Panics msg w1 l1
    | OutOfFuel => OutOfFuel
    end.

Notation "'let*' x ':=' m 'in' k" := (bind m (fun x => k))
  (at level 10, x name, m at level 100, k at level 200).
Notation "m >> k" := (bind m (fun _ => k))
  (at level 100, k at level 200, right associativity).

Definition emit (e : Event) : M unit := fun w => Returns tt w [e].
Definition get_world : M World := fun w => Returns w w [].
Definition panic {A} (msg : string) : M A := fun w => Panics msg w [].
Definition out_of_fuel {A} : M A := fun _ => OutOfFuel.

(** [defer d] registered before [m]: [d] runs when [m] returns and also
    when it panics. *)
Definition defer {A} (d : M unit) (m : M A) : M A :=
  fun w =>
    match m w with
    | Returns a w1 l1 =>
        match d w1 with
        | Returns _ w2 l2 => Returns a w2 (l1 ++ l2)
        | Panics msg w2 l2 => Panics msg w2 (l1 ++ l2)
        | OutOfFuel => OutOfFuel
        end
    | Panics msg w1 l1 =>
        match d w1 with
        | Returns _ w2 l2 => Panics msg w2 (l1 ++ l2)
        | Panics msg' w2 l2 => Panics msg' w2 (l1 ++ l2)
        | OutOfFuel => OutOfFuel
        end
    | OutOfFuel => OutOfFuel
    end.

(** The same outcome, after the events [l]. *)
Definition prepend_log {A} (l : list Event) (o : Outcome A) : Outcome A :=
  match o with
  | Returns a w l' => Returns a w (l ++ l')
  | Panics msg w l' => Panics msg w (l ++ l')
  | OutOfFuel => OutOfFuel
  end.

(** The same outcome, followed by the events [l]. *)
Definition append_log {A} (o : Outcome A) (l : list Event) : Outcome A :=
  match o with
  | Returns a w l' => Returns a w (l' ++ l)
  | Panics msg w l' => Panics msg w (l' ++ l)
  | OutOfFuel => OutOfFuel
  end.

(** ** Primitive actions *)

(** Reading a request object through its pointer; a nil or dangling
    pointer panics. *)
Definition deref (req : nat) : M http.Request :=
  fun w =>
    match requests w !! req with
    | Some r => Returns r w []
    | None => Panics "invalid memory address or nil pointer dereference" w []
    end.

(** [req.Header.Set(key, value)]: the object behind the pointer is
    updated in place. *)
Definition Header_Set (req : nat) (key value : string) : M unit :=
  let* r := deref req in
  fun w =>
    Returns tt (set_requests w
                  (<[req := http.Request_Header_Set r key value]> (requests w))) [].

(** [req.AddCookie(cookie)] *)
Definition AddCookie (req : nat) (cookie : string) : M unit :=
  let* r := deref req in
  fun w =>
    Returns tt (set_requests w
                  (<[req := http.Request_AddCookie r cookie]> (requests w))) [].

(** [c.Crawled.Incr(n)]: an atomic add on an [int64]. *)
Definition Crawled_Incr (n : Z) : M unit :=
  fun w => Returns tt (set_Crawled w (wrap_int64 (Crawled w + n))) [EvCrawledIncr n].

(** [c.Frontier.QueueCount.Incr(n)] *)
Definition QueueCount_Incr (n : Z) : M unit :=
  fun w =>
    Returns tt (set_QueueCount w (wrap_int64 (QueueCount w + n)))
            [EvQueueCountIncr n].

(** [resp.Body.Close()] *)
Definition Body_Close (resp : http.Response) : M unit := emit (EvBodyClose resp).

(** [logWarning.WithFields(error).Warning(msg)] *)
Definition logWarning (err : error) (msg : string) : M unit :=
  emit (EvWarning msg err).

(** [os.Remove(path)]: fails when there is no such file. *)
Definition os_Remove (path : string) : M (option error) :=
  fun w =>
    if bool_decide (path ∈ files w)
    then Returns None (set_files w (files w ∖ {[path]})) [EvRemove path None]
    else Returns (Some "no such file or directory") w
                 [EvRemove path (Some "no such file or directory")].

(** [deleteTempFile], lines 256-266. *)
Definition deleteTempFile (path : string) : M unit :=
  if negb (String.eqb path "") then
    let* err := os_Remove path in
    match err with
    | Some err => logWarning err "Error deleting temporary file"
    | None => ret tt
    end
  else ret tt.

(** Modelled from the spec: [frontier.NewItem], the item factory, which
    "constructs a Capture Item from a URL, parent item, type, and hop
    count"; the redirect count of a new item is zero and its hash is the
    content hash of the URL. *)
Definition NewItem (hash : url.URL -> N) (URL : url.URL)
    (parentItem : option frontier.Item) (itemType : string) (hop : Z)
  : frontier.Item :=
  {| frontier.URL := URL; frontier.ParentItem := parentItem;
     frontier.Type_ := itemType; frontier.Hop := hop;
     frontier.Redirect := 0; frontier.Hash := hash URL |}.

Section Capture.

Variable E : Env.
Variable c : Crawl.

(** [http.NewRequest(method, url, nil)]: parses the URL and allocates a
    request object with an empty header. *)
Definition http_NewRequest (method urlStr : string) : M (nat + error) :=
  match url_Parse E urlStr with
  | inr err => ret (inr err)
  | inl u =>
      fun w =>
        Returns (inl (List.length (requests w)))
                (set_requests w
                   (requests w ++
                    [{| http.Method := method; http.URL := u;
                        http.Header := ∅ |}])%list)
                []
  end.

(** [client.Do(req)]: the request object is sent as it is now. *)
Definition Do (client : http.Client) (req : nat) : M (http.Response + error) :=
  let* r := deref req in
  fun w =>
    Returns (match client_Do E w client r with
             | inl reply => inl (http.Response_of_Reply reply req)
             | inr err => inr err
             end)
            (set_issued w (S (issued w)))
            [EvDo client req r].

(** Modelled from the spec: [c.writeWARC], the archival writer,
    "archive(response) -> (tempPath, error)", whose handle is "a path to
    a temporary on-disk copy of the response body": a non-empty path it
    returns names a file that now exists. *)
Definition writeWARC (resp : http.Response) : M (string * option error) :=
  fun w =>
    let '(path, err) := writeWARC_result E w resp in
    Returns (path, err)
            (set_files w
               (if String.eqb path "" then files w else {[path]} ∪ files w))
            [EvWriteWARC resp path err].

(** What one call of [executeGET] ends with: the triple
    [(resp, respPath, err)] it returns, or the recursive call of line 71,
    whose result it returns as it is. *)
Inductive Next :=
| Done (res : option http.Response * string * option error)
| Recurse (newItem : frontier.Item) (newReq : nat).

(** The condition of line 24: the direct client when no proxied client
    is configured or the host is in the bypass list. *)
Definition client_for (r : http.Request) : http.Client :=
  match ClientProxied c with
  | None => Client c
  | Some proxied =>
      if StringContainsSliceElements E (url.Host (http.URL r)) (BypassProxy c)
      then Client c else proxied
  end.

(** [executeGET], lines 23-44: the request is sent through the direct or
    the proxied client and, when archival is on, the exchange is written
    to the WARC. [inr] is an early return. *)
Definition executeGET_fetch (req : nat)
  : M (http.Response * string
       + option http.Response * string * option error) :=
  let* r := deref req in
  let* d := Do (client_for r) req in
  match d with
  | inr err => ret (inr (None, "", Some err))
  | inl resp =>
    if WARC c then
      let* pe := writeWARC resp in
      match pe with
      | (respPath, Some err) =>
          Body_Close resp >> ret (inr (Some resp, respPath, Some err))
      | (respPath, None) => Crawled_Incr 1 >> ret (inl (resp, respPath))
      end
    else ret (inl (resp, ""))
  end.

(** [executeGET], lines 46-70: the redirection is followed or not. *)
Definition executeGET_redirect (parentItem : frontier.Item) (req : nat)
    (resp : http.Response) (respPath : string) : M Next :=
  if isRedirection E (http.StatusCode resp) then
    let* r := deref req in
    let location := http.Header_Get (http.RespHeader resp) "location" in
    if String.eqb location (url.String (http.URL r))
       || (MaxRedirect c <=? frontier.Redirect parentItem)
    then ret (Done (Some resp, respPath, None))
    else
      match url_Parse E location with
      | inr err => ret (Done (Some resp, respPath, Some err))
      | inl URL =>
        let newItem :=
          frontier.set_Redirect
            (NewItem (item_hash E) URL (Some parentItem)
                     (frontier.Type_ parentItem) (frontier.Hop parentItem))
            (wrap_int64 (frontier.Redirect parentItem + 1)) in
        let* nr := http_NewRequest "GET" (url.String URL) in
        match nr with
        | inr err => ret (Done (Some resp, respPath, Some err))
        | inl newReq =>
          Header_Set req "User-Agent" (UserAgent c) >>
          match frontier.ParentItem newItem with
          | None => panic "invalid memory address or nil pointer dereference"
          | Some p => Header_Set req "Referer" (url.String (frontier.URL p))
          end >>
          deleteTempFile respPath >>
          ret (Recurse newItem newReq)
        end
      end
  else ret (Done (Some resp, respPath, None)).

(** One call of [executeGET] up to its recursive call. *)
Definition executeGET_hop (parentItem : frontier.Item) (req : nat) : M Next :=
  emit (EvExecuteGET parentItem req) >>
  let* f := executeGET_fetch req in
  match f with
  | inr res => ret (Done res)
  | inl (resp, respPath) => executeGET_redirect parentItem req resp respPath
  end.

(** [executeGET], lines 18-77. The fuel bounds the depth of the
    recursion. *)
Fixpoint executeGET (fuel : nat) (parentItem : frontier.Item) (req : nat)
  : M (option http.Response * string * option error) :=
  match fuel with
  | O => out_of_fuel
  | S fuel' =>
    let* next := executeGET_hop parentItem req in
    match next with
    | Done res => ret res
    | Recurse newItem newReq => executeGET fuel' newItem newReq
    end
  end.

(** Modelled from the spec: [c.Frontier.Seencheck.IsSeen(hash)], the
    lookup of the seen-set store, "isSeen(key) -> bool", on "a dedup
    record keyed by the item's content hash, mapping to its type". *)
Definition IsSeen (hash : string) : M bool :=
  fun w =>
    let found := bool_decide (is_Some (SeencheckDB w !! hash)) in
    Returns found w [EvIsSeen hash found].

(** Modelled from the spec: [c.Frontier.Seencheck.Seen(hash, type)],
    "markSeen(key, type)". *)
Definition Seen (hash type : string) : M unit :=
  fun w =>
    Returns tt (set_SeencheckDB w (<[hash := type]> (SeencheckDB w)))
            [EvSeen hash type].

(** Modelled from the spec: [c.logCrawlSuccess], the "success
    observation (elapsed time, status code, item)", "fire-and-forget". *)
Definition logCrawlSuccess (status : Z) (item : frontier.Item) : M unit :=
  emit (EvCrawlSuccess status item).

Fixpoint AddCookies (req : nat) (cookies : list string) : M unit :=
  match cookies with
  | [] => ret tt
  | cookie :: rest => AddCookie req cookie >> AddCookies req rest
  end.

(** [captureAsset], lines 79-121; the result is the returned error. *)
Definition captureAsset (fuel : nat) (item : frontier.Item)
    (cookies : list string) : M (option error) :=
  emit (EvCaptureAsset item cookies) >>
  let* skip :=
    (if Seencheck c then
       let hash := FormatUint (frontier.Hash item) in
       let* found := IsSeen hash in
       if found then ret true
       else Seen hash (frontier.Type_ item) >> ret false
     else ret false) in
  if skip then ret None
  else
    let* nr := http_NewRequest "GET" (url.String (frontier.URL item)) in
    match nr with
    | inr err => ret (Some err)
    | inl req =>
      match frontier.ParentItem item with
      | None => panic "invalid memory address or nil pointer dereference"
      | Some p => Header_Set req "Referer" (url.String (frontier.URL p))
      end >>
      AddCookies req cookies >>
      let* res := executeGET fuel item req in
      match res with
      | (_, respPath, Some err) => deleteTempFile respPath >> ret (Some err)
      | (None, _, None) =>
          panic "invalid memory address or nil pointer dereference"
      | (Some resp, respPath, None) =>
          defer (Body_Close resp)
            (deleteTempFile respPath >>
             logCrawlSuccess (http.StatusCode resp) item >>
             ret None)
      end
    end.

(** [go c.queueOutlinks(outlinks, item)]: the goroutine is started and
    the caller goes on; nothing of it runs inside [Capture]. *)
Definition go_queueOutlinks (outlinks : list url.URL) (item : frontier.Item)
  : M unit :=
  emit (EvGoQueueOutlinks outlinks item).

(** The warning of lines 241-250, with the counters it reads. *)
Definition logAssetWarning (err : error) (item : frontier.Item)
    (asset : url.URL) : M unit :=
  fun w =>
    Returns tt w
            [EvAssetWarning (url.String asset) err (QueueCount w) (Crawled w)
                            (frontier.Hop item) (url.String (frontier.URL item))].

(** The [for _, asset := range assets] loop, lines 230-253. *)
Fixpoint Capture_assets_loop (fuel : nat) (item : frontier.Item)
    (resp : http.Response) (assets : list url.URL) : M unit :=
  match assets with
  | [] => ret tt
  | asset :: rest =>
    QueueCount_Incr (-1) >>
    (if String.eqb (url.String (frontier.URL item)) (url.String asset)
     then ret tt
     else
       let newAsset :=
         NewItem (item_hash E) asset (Some item) "asset" (frontier.Hop item) in
       let* err := captureAsset fuel newAsset (http.Cookies resp) in
       match err with
       | Some err => logAssetWarning err item asset
       | None => ret tt
       end) >>
    Capture_assets_loop fuel item resp rest
  end.

(** Lines 229-253: the queue counter is raised by the number of assets,
    then the loop runs. *)
Definition Capture_assets (fuel : nat) (item : frontier.Item)
    (resp : http.Response) (assets : list url.URL) : M unit :=
  QueueCount_Incr (Z.of_nat (List.length assets)) >>
  Capture_assets_loop fuel item resp assets.

(** Lines 208-253: outlinks, then assets, of a parsed document. *)
Definition Capture_links (fuel : nat) (item : frontier.Item)
    (resp : http.Response) (base : url.URL) (doc : Document) : M unit :=
  let* go_on :=
    (if frontier.Hop item <? MaxHops c then
       let res := extractOutlinks E base doc in
       emit (EvExtractOutlinks base doc res) >>
       match res with
       | inr err =>
           logWarning err (url.String (frontier.URL item)) >> ret false
       | inl outlinks => go_queueOutlinks outlinks item >> ret true
       end
     else ret true) in
  if go_on then
    let res := extractAssets E base doc in
    emit (EvExtractAssets base doc res) >>
    match res with
    | inr err => logWarning err (url.String (frontier.URL item))
    | inl assets => Capture_assets fuel item resp assets
    end
  else ret tt.

(** Lines 220-253 as an outcome: the assets are extracted; then either
    the failure is logged or the asset block runs. *)
Definition Capture_asset_stage (fuel : nat) (item : frontier.Item)
    (resp : http.Response) (base : url.URL) (doc : Document) (w : World)
  : Outcome unit :=
  prepend_log [EvExtractAssets base doc (extractAssets E base doc)]
    (match extractAssets E base doc with
     | inr err => logWarning err (url.String (frontier.URL item)) w
     | inl assets => Capture_assets fuel item resp assets w
     end).

(** Lines 170-206: the document comes from the temp file when there is
    one, from the live response body otherwise. [None] stands for the
    early returns. *)
Definition Capture_document (item : frontier.Item) (resp : http.Response)
    (respPath : string) : M (option Document) :=
  if negb (String.eqb respPath "") then
    let* w := get_world in
    let opened := os_Open E w respPath in
    emit (EvOpen respPath opened) >>
    match opened with
    | Some err =>
        logWarning err "Error opening temporary file for outlinks/assets extraction" >>
        deleteTempFile respPath >> ret None
    | None =>
        let res := NewDocumentFromReader E w respPath in
        emit (EvParseFile respPath res) >>
        match res with
        | inr err =>
            logWarning err "Error opening temporary file for outlinks/assets extraction" >>
            deleteTempFile respPath >> ret None
        | inl doc => deleteTempFile respPath >> ret (Some doc)
        end
    end
  else
    let* w := get_world in
    let res := NewDocumentFromResponse E w resp in
    emit (EvParseResponse resp res) >>
    match res with
    | inr err => logWarning err (url.String (frontier.URL item)) >> ret None
    | inl doc => ret (Some doc)
    end.

(** Lines 151-253: what [Capture] does with a response it obtained. *)
Definition Capture_scrape (fuel : nat) (item : frontier.Item)
    (resp : http.Response) (respPath : string) : M unit :=
  logCrawlSuccess (http.StatusCode resp) item >>
  if negb (strings_Contains
             (http.Header_Get (http.RespHeader resp) "Content-Type") "text/")
  then deleteTempFile respPath
  else
    let* rq := deref (http.Request_of resp) in
    match url_Parse E (url.String (http.URL rq)) with
    | inr err =>
        logWarning err (url.String (frontier.URL item)) >>
        deleteTempFile respPath
    | inl base =>
        let* d := Capture_document item resp respPath in
        match d with
        | None => ret tt
        | Some doc => Capture_links fuel item resp base doc
        end
    end.

(** [Capture], lines 128-139: the request for the page, with a
    [Referer] when the item is not a seed. *)
Definition Capture_request (item : frontier.Item) : M (nat + error) :=
  let* nr := http_NewRequest "GET" (url.String (frontier.URL item)) in
  match nr with
  | inr err => ret (inr err)
  | inl req =>
    (if 0 <? frontier.Hop item then
       match frontier.ParentItem item with
       | None => panic "invalid memory address or nil pointer dereference"
       | Some p =>
           if (0 <? String.length (url.String (frontier.URL p)))%nat
           then Header_Set req "Referer" (url.String (frontier.URL p))
           else ret tt
       end
     else ret tt) >>
    ret (inl req)
  end.

(** [Capture], lines 124-254. *)
Definition Capture (fuel : nat) (item : frontier.Item) : M unit :=
  let* rq := Capture_request item in
  match rq with
  | inr err => logWarning err (url.String (frontier.URL item))
  | inl req =>
    let* res := executeGET fuel item req in
    match res with
    | (_, respPath, Some err) =>
        logWarning err (url.String (frontier.URL item)) >>
        deleteTempFile respPath
    | (None, _, None) =>
        panic "invalid memory address or nil pointer dereference"
    | (Some resp, respPath, None) =>
        defer (Body_Close resp) (Capture_scrape fuel item resp respPath)
    end
  end.

End Capture.

(** ** Reading outcomes *)

Definition outcome_log {A} (o : Outcome A) : list Event :=
  match o with
  | Returns _ _ l | Panics _ _ l => l
  | OutOfFuel => []
  end.

(** The requests sent, as they were when sent, in order. *)
Definition issued_requests (log : list Event) : list http.Request :=
  omap (fun e => match e with EvDo _ _ r => Some r | _ => None end) log.

(** The [User-Agent] and [Referer] headers of a request, with its URL. *)
Definition sent_headers (r : http.Request) : string * (string * string) :=
  (url.String (http.URL r),
   (http.Header_Get (http.Header r) "User-Agent",
    http.Header_Get (http.Header r) "Referer")).

(** What every event of a run of [Capture] on [item] satisfies: an
    asset handed to [captureAsset] is a child of [item] whose URL is not
    the URL of [item]; outlinks are extracted and queued only below the
    hop limit, and queued for [item]. *)
Definition capture_event (E : Env) (c : Crawl) (item : frontier.Item)
    (e : Event) : Prop :=
  match e with
  | EvCaptureAsset a _ =>
      a = NewItem (item_hash E) (frontier.URL a) (Some item) "asset"
                  (frontier.Hop item) /\
      url.String (frontier.URL a) <> url.String (frontier.URL item)
  | EvExtractOutlinks _ _ _ => frontier.Hop item < MaxHops c
  | EvGoQueueOutlinks _ it => frontier.Hop item < MaxHops c /\ it = item
  | _ => True
  end.

(** The events of the link stage of [Capture]: extraction and queueing
    of outlinks, extraction and capture of assets. *)
Definition is_link_event (e : Event) : bool :=
  match e with
  | EvExtractOutlinks _ _ _ | EvGoQueueOutlinks _ _ | EvExtractAssets _ _ _
  | EvCaptureAsset _ _ | EvQueueCountIncr _ | EvAssetWarning _ _ _ _ _ _
  | EvIsSeen _ _ | EvSeen _ _ => true
  | _ => false
  end.

Definition is_outlink_event (e : Event) : bool :=
  match e with
  | EvExtractOutlinks _ _ _ | EvGoQueueOutlinks _ _ => true
  | _ => false
  end.

(** The events of the scraping that follows the content-type gate:
    opening and parsing the document, the link stage, and any warning
    other than that of a failed removal of a temp file. *)
Definition is_scrape_event (e : Event) : bool :=
  match e with
  | EvOpen _ _ | EvParseFile _ _ | EvParseResponse _ _ => true
  | EvWarning msg _ => negb (String.eqb msg "Error deleting temporary file")
  | _ => is_link_event e
  end.

(** The events of the asset stage alone. *)
Definition is_asset_stage_event (e : Event) : bool :=
  match e with
  | EvExtractAssets _ _ _ | EvCaptureAsset _ _ | EvQueueCountIncr _
  | EvAssetWarning _ _ _ _ _ _ | EvIsSeen _ _ | EvSeen _ _ => true
  | _ => false
  end.

(** The amounts added to the queue counter, in order. *)
Definition queue_incrs (log : list Event) : list Z :=
  omap (fun e => match e with EvQueueCountIncr n => Some n | _ => None end) log.

(** The number of successful WARC writes and the number of increments of
    the crawled counter in a log. *)
Definition warc_writes (log : list Event) : nat :=
  List.length (List.filter (fun e => match e with
                                     | EvWriteWARC _ _ None => true
                                     | _ => false
                                     end) log).

Definition crawled_incrs (log : list Event) : list Z :=
  omap (fun e => match e with EvCrawledIncr n => Some n | _ => None end) log.

(** The increments of the crawled counter in a run are one per successful
    WARC write, and the counter ends that much higher. *)
Definition crawled_counts : World -> World -> list Event -> Prop :=
  fun w w' l =>
    (in_int64 (Crawled w) -> in_int64 (Crawled w')) /\
    wrap_int64 (Crawled w') = wrap_int64 (Crawled w + Z.of_nat (warc_writes l)) /\
    crawled_incrs l = replicate (warc_writes l) 1.

(** Reading a log of the fetch executor for the temp files: [pending]
    is the temp file of the call in progress. A WARC write sets it, its
    removal clears it, and a call of [executeGET] may only begin when no
    temp file is pending. The result is the file pending at the end. *)
Fixpoint temp_file_pending (log : list Event) (pending : string)
  : option string :=
  match log with
  | [] => Some pending
  | EvExecuteGET _ _ :: log' =>
      if String.eqb pending "" then temp_file_pending log' "" else None
  | EvWriteWARC _ path _ :: log' => temp_file_pending log' path
  | EvRemove path _ :: log' =>
      temp_file_pending log' (if String.eqb path pending then "" else pending)
  | _ :: log' => temp_file_pending log' pending
  end.

(** A relation between the world before, the world after and the log of
    a run that holds of the empty run and composes along sequencing. *)
Class Invariant (R : World -> World -> list Event -> Prop) : Prop := {
  inv_refl : forall w, R w w [];
  inv_trans : forall w w1 w2 l1 l2,
    R w w1 l1 -> R w1 w2 l2 -> R w w2 (l1 ++ l2)
}.

(** Every run of [m] that returns or panics satisfies [R]. *)
Definition respects {A} (R : World -> World -> list Event -> Prop) (m : M A)
  : Prop :=
  forall w,
    match m w with
    | Returns _ w' l | Panics _ w' l => R w w' l
    | OutOfFuel => True
    end.

(** The log of a run holds only events that satisfy [P]. *)
Definition log_only (P : Event -> Prop) : World -> World -> list Event -> Prop :=
  fun _ _ l => Forall P l.

(** A component [f] of the world is left as it was. *)
Definition keeps {T} (f : World -> T) : World -> World -> list Event -> Prop :=
  fun w w' _ => f w' = f w.

(** [m] started in [w] returns, with a result, a world and a log that
    satisfy [Q]. *)
Definition wp {A} (m : M A) (Q : A -> World -> list Event -> Prop)
    (w : World) : Prop :=
  exists a w' l, m w = Returns a w' l /\ Q a w' l.

(** What the fetch executor leaves alone: the queue counter and the
    seencheck table; and it frees no request object. *)
Definition fetch_frame : World -> World -> list Event -> Prop :=
  fun w w' _ =>
    QueueCount w' = QueueCount w /\ SeencheckDB w' = SeencheckDB w /\
    (List.length (requests w) <= List.length (requests w'))%nat.

(** The redirect counts of the items [executeGET] was called with, in
    the order of the calls. *)
Definition redirects_of (log : list Event) : list Z :=
  omap (fun e => match e with
                 | EvExecuteGET item _ => Some (frontier.Redirect item)
                 | _ => None
                 end) log.

(** The world and the log [deleteTempFile] leaves. *)
Definition deleteTempFile_world (path : string) (w : World) : World :=
  set_files w (if String.eqb path "" then files w else files w ∖ {[path]}).

Definition deleteTempFile_log (path : string) (w : World) : list Event :=
  if String.eqb path "" then []
  else if bool_decide (path ∈ files w) then [EvRemove path None]
       else [EvRemove path (Some "no such file or directory");
             EvWarning "Error deleting temporary file"
                       "no such file or directory"].

(** The calls of one run carry the redirect counts [r, r+1, ..., r+n]
    and stay within the budget. *)
Definition counts_redirects (c : Crawl) (item : frontier.Item)
    (log : list Event) : Prop :=
  exists n : nat,
    redirects_of log = seqZ (frontier.Redirect item) (Z.of_nat (S n)) /\
    Z.of_nat n <= Z.max 0 (MaxRedirect c - frontier.Redirect item).

(** ** Classes of events *)

(** What the fetch executor may do: call itself, send a request, write
    to the WARC, count, close a body, remove a temp file and warn that a
    removal failed. *)
Definition is_fetch_event (e : Event) : bool :=
  match e with
  | EvExecuteGET _ _ | EvDo _ _ _ | EvWriteWARC _ _ _ | EvCrawledIncr _
  | EvBodyClose _ | EvRemove _ _ => true
  | EvWarning msg _ => String.eqb msg "Error deleting temporary file"
  | _ => false
  end.

(** What the asset capturer adds to that: its own call, the seencheck
    and the success observation. *)
Definition is_asset_event (e : Event) : bool :=
  match e with
  | EvCaptureAsset _ _ | EvIsSeen _ _ | EvSeen _ _ | EvCrawlSuccess _ _ => true
  | _ => is_fetch_event e
  end.

(** ** A demonstration environment

    A tiny web used to run the code on concrete inputs: [a.test]
    redirects to [b.test], every URL under [r.test] redirects to a fresh
    URL under [r.test], [b.test] is an HTML page, [broken.test] a page
    whose outlinks cannot be extracted, [img.test] serves an image and
    [down.test] refuses connections. *)
Module Demo.

Definition parse (s : string) : url.URL + error :=
  if has_prefix "http://" s
  then inl (url.mkURL (String.substring 7 (String.length s - 7) s) s)
  else inr "missing protocol scheme".

Definition reply (status : Z) (hdr : list (string * string))
    (cookies : list string) : http.Reply + error :=
  inl {| http.reply_StatusCode := status;
         http.reply_Header := list_to_map hdr;
         http.reply_Cookies := cookies;
         http.reply_Body := "" |}.

Definition web (w : World) (_ : http.Client) (r : http.Request)
  : http.Reply + error :=
  let u := url.String (http.URL r) in
  if String.eqb u "http://a.test/" then
    reply 302 [("Location", "http://b.test/")] []
  else if String.eqb u "http://b.test/" then
    reply 200 [("Content-Type", "text/html")] ["sid=1"]
  else if String.eqb u "http://self.test/" then
    reply 301 [("Location", "http://self.test/")] []
  else if String.eqb u "http://bad.test/" then
    reply 302 [("Location", "ftp")] []
  else if has_prefix "http://r.test/" u then
    reply 302 [("Location",
                ("http://r.test/" ++ FormatUint (N.of_nat (issued w)))%string)] []
  else if has_prefix "http://img.test/" u then
    reply 200 [("Content-Type", "image/png")] []
  else if String.eqb u "http://broken.test/" then
  inl {| http.reply_StatusCode := 200;
         http.reply_Header := {["Content-Type" := "text/html"]};
         http.reply_Cookies := [];
         http.reply_Body := "broken" |}
else if String.eqb u "http://down.test/" then inr "connection refused"
  else if String.eqb u "http://full.test/" then
    reply 500 [("Content-Type", "text/html")] []
  else reply 404 [("Content-Type", "text/plain")] [].

Definition warc (w : World) (resp : http.Response) : string * option error :=
  if http.StatusCode resp =? 500 then ("", Some "no space left on device")
  else (("/tmp/" ++ FormatUint (N.of_nat (issued w)) ++ ".temp")%string, None).

Definition u_b : url.URL := url.mkURL "b.test/" "http://b.test/".
Definition u_img : url.URL := url.mkURL "img.test/x.png" "http://img.test/x.png".
Definition u_o1 : url.URL := url.mkURL "b.test/one" "http://b.test/one".
Definition u_o2 : url.URL := url.mkURL "b.test/two" "http://b.test/two".
Definition u_down : url.URL := url.mkURL "down.test/" "http://down.test/".

Definition outlinks (base : url.URL) (doc : Document)
  : list url.URL + error :=
  match doc with
  | mkDocument "broken" => inr "cannot extract outlinks"
  | _ => inl [u_o1; u_o2]
  end.

Definition assets (base : url.URL) (doc : Document)
  : list url.URL + error :=
  inl [base; u_img; u_down].

Definition is_redirect (status : Z) : bool :=
  (status =? 300) || (status =? 301) || (status =? 302)
  || (status =? 307) || (status =? 308).

Definition bypass (host : string) (l : list string) : bool :=
  existsb (fun e => strings_Contains host e) l.

Definition env : Env :=
  {| client_Do := web;
     writeWARC_result := warc;
     url_Parse := parse;
     os_Open := fun _ _ => None;
     NewDocumentFromReader := fun _ path => inl (mkDocument path);
     NewDocumentFromResponse := fun _ resp => inl (mkDocument (http.Body resp));
     extractOutlinks := outlinks;
     extractAssets := assets;
     isRedirection := is_redirect;
     StringContainsSliceElements := bypass;
     item_hash := fun u => N.of_nat (String.length (url.String u)) |}.

Definition crawl (warc : bool) (seencheck : bool) : Crawl :=
  {| Client := http.mkClient "direct";
     ClientProxied := None;
     BypassProxy := [];
     UserAgent := "Zeno";
     MaxHops := 3;
     MaxRedirect := 2;
     Seencheck := seencheck;
     WARC := warc |}.

Definition world0 : World :=
  {| requests := []; files := ∅; Crawled := 0; QueueCount := 0;
     SeencheckDB := ∅; issued := 0 |}.

Definition seed (u : string) : frontier.Item :=
  {| frontier.URL := url.mkURL (String.substring 7 (String.length u - 7) u) u;
     frontier.ParentItem := None; frontier.Type_ := "seed";
     frontier.Hop := 0; frontier.Redirect := 0; frontier.Hash := 0 |}.

(** The request object a caller of [executeGET] prepares for an item. *)
Definition request_for (u : string) : http.Request :=
  {| http.Method := "GET";
     http.URL := url.mkURL (String.substring 7 (String.length u - 7) u) u;
     http.Header := {["User-Agent" := "Zeno"]} |}.

Definition world1 (u : string) : World := set_requests world0 [request_for u].

(** The image of the page [b.test], as an asset item, and a world in
    which its hash has been seen. *)
Definition asset_img : frontier.Item :=
  NewItem (item_hash env) u_img (Some (seed "http://b.test/")) "asset" 0.

Definition world_seen : World :=
  set_SeencheckDB world0 {[FormatUint (frontier.Hash asset_img) := "asset"]}.

End Demo.

(** ** Further readings of a log *)

(** The items [executeGET] was called with, and the items handed to
    [captureAsset], in the order of the calls. *)
Definition calls_of (log : list Event) : list frontier.Item :=
  omap (fun e => match e with EvExecuteGET item _ => Some item | _ => None end)
       log.

Definition captured_assets (log : list Event) : list frontier.Item :=
  omap (fun e => match e with EvCaptureAsset a _ => Some a | _ => None end) log.

(** The items of a redirect chain: each one was made from the one
    before by lines 57-58. *)
Fixpoint redirect_chain (hash : url.URL -> N) (first : frontier.Item)
    (rest : list frontier.Item) : Prop :=
  match rest with
  | [] => True
  | item :: rest' =>
      item = frontier.set_Redirect
               (NewItem hash (frontier.URL item) (Some first)
                        (frontier.Type_ first) (frontier.Hop first))
               (frontier.Redirect first + 1) /\
      redirect_chain hash item rest'
  end.

(** The counter of requests sent moves with the requests of the log. *)
Definition counts_requests : World -> World -> list Event -> Prop :=
  fun w w' l =>
    issued w' = (issued w + List.length (issued_requests l))%nat.

(** The request of an [EvDo] went through the client that line 24
    chooses for it. *)
Definition sent_through (E : Env) (c : Crawl) (e : Event) : Prop :=
  match e with
  | EvDo client _ r =>
      match ClientProxied c with
      | None => client = Client c
      | Some proxied =>
          if StringContainsSliceElements E (url.Host (http.URL r))
                                         (BypassProxy c)
          then client = Client c else client = proxied
      end
  | _ => True
  end.

(** The request [captureAsset] builds, lines 94-105: a GET of the
    parsed URL of the asset with the [Referer] of the page and, when the
    page's response brought cookies, one [Cookie] header that joins
    them. *)
Definition asset_request (u : url.URL) (referer : string)
    (cookies : list string) : http.Request :=
  {| http.Method := "GET"; http.URL := u;
     http.Header :=
       match cookies with
       | [] => {["Referer" := referer]}
       | _ => <["Cookie" := String.concat "; " cookies]>
                {["Referer" := referer]}
       end |}.

(** The request [Capture] builds, lines 129-139: a GET of the parsed URL
    of the item and, for an item that is not a seed and whose parent has
    a non-empty URL, the [Referer] of the parent. *)
Definition page_request (u : url.URL) (item : frontier.Item) : http.Request :=
  {| http.Method := "GET"; http.URL := u;
     http.Header :=
       match frontier.ParentItem item with
       | Some p =>
           if (0 <? frontier.Hop item)
              && (0 <? String.length (url.String (frontier.URL p)))%nat
           then {["Referer" := url.String (frontier.URL p)]}
           else ∅
       | None => ∅
       end |}.

(** What the fetch executor does when archival is off: it calls itself
    and sends requests, nothing else. *)
Definition is_plain_fetch_event (e : Event) : bool :=
  match e with
  | EvExecuteGET _ _ | EvDo _ _ _ => true
  | _ => false
  end.

(** The asset items the loop of lines 230-253 makes for a list of asset
    URLs: one for each URL that does not read as the URL of the page. *)
Definition assets_to_capture (E : Env) (item : frontier.Item)
    (assets : list url.URL) : list frontier.Item :=
  map (fun asset =>
         NewItem (item_hash E) asset (Some item) "asset" (frontier.Hop item))
      (List.filter
         (fun asset =>
            negb (String.eqb (url.String (frontier.URL item))
                             (url.String asset)))
         assets).

(** A request that carries no [User-Agent] header. *)
Definition no_user_agent (r : http.Request) : Prop :=
  http.Header r !! CanonicalHeaderKey "User-Agent" = None.

(** The items a log shows being fetched for themselves rather than for
    a redirection: the calls of [executeGET] with a redirect count of
    zero. *)
Definition first_calls (log : list Event) : list frontier.Item :=
  List.filter (fun item => frontier.Redirect item =? 0) (calls_of log).

(** The key under which the seencheck files an item, line 86. *)
Definition seen_key (item : frontier.Item) : string :=
  FormatUint (frontier.Hash item).

Definition is_extract_event (e : Event) : bool :=
  match e with
  | EvExtractOutlinks _ _ _ | EvExtractAssets _ _ _ => true
  | _ => false
  end.

(** Reading a log for the base of the extractions: [sent] is the request
    sent most recently. Every extraction of outlinks or of assets takes
    as its base the parsed URL of that request. *)
Fixpoint bases_follow (E : Env) (sent : option http.Request)
    (log : list Event) : Prop :=
  match log with
  | [] => True
  | EvDo _ _ r :: log' => bases_follow E (Some r) log'
  | EvExtractOutlinks base _ _ :: log' | EvExtractAssets base _ _ :: log' =>
      (exists r,
         sent = Some r /\
         url_Parse E (url.String (http.URL r)) = inl base) /\
      bases_follow E sent log'
  | _ :: log' => bases_follow E sent log'
  end.

(** The request sent most recently at the end of a log. *)
Definition last_sent (sent : option http.Request) (log : list Event)
  : option http.Request :=
  match last (issued_requests log) with
  | Some r => Some r
  | None => sent
  end.

(** The responses whose body a log shows being closed, in order. *)
Definition closed_bodies (log : list Event) : list http.Response :=
  omap (fun e => match e with EvBodyClose resp => Some resp | _ => None end)
       log.

(** What [executeGET] has closed when it returns [res]: nothing, or, when
    it returns a response together with an error, at most the body of
    that response, as its last action and after the failed WARC write of
    that response. *)
Definition closes_only_failed_write
    (res : option http.Response * string * option error)
    (log : list Event) : Prop :=
  match res with
  | (Some resp, respPath, Some err) =>
      closed_bodies log = [] \/
      (closed_bodies log = [resp] /\
       last log = Some (EvBodyClose resp) /\
       In (EvWriteWARC resp respPath (Some err)) log)
  | _ => closed_bodies log = []
  end.

(** * Properties *)

(** ** Arithmetic of wrap-around *)

Lemma wrap_int64_id z : in_int64 z -> wrap_int64 z = z.
Proof.
  unfold in_int64, wrap_int64. intros Hz.
  rewrite Z.mod_small; lia.
Qed.

Lemma wrap_int64_range z : in_int64 (wrap_int64 z).
Proof.
  unfold in_int64, wrap_int64.
  pose proof (Z.mod_pos_bound (z + 2 ^ 63) (2 ^ 64)). lia.
Qed.

Lemma wrap_int64_add_l a b : wrap_int64 (wrap_int64 a + b) = wrap_int64 (a + b).
Proof.
  unfold wrap_int64. f_equal.
  replace ((a + 2 ^ 63) mod 2 ^ 64 - 2 ^ 63 + b + 2 ^ 63)
    with ((a + 2 ^ 63) mod 2 ^ 64 + b) by lia.
  rewrite Zplus_mod_idemp_l. f_equal. lia.
Qed.

(** ** Invariants of runs *)

Section Invariants.

Context (R : World -> World -> list Event -> Prop) `{!Invariant R}.

Lemma respects_ret {A} (a : A) : respects R (ret a).
Proof. intros w. apply inv_refl. Qed.

Lemma respects_panic {A} msg : respects R (@panic A msg).
Proof. intros w. apply inv_refl. Qed.

Lemma respects_out_of_fuel {A} : respects R (@out_of_fuel A).
Proof. intros w. exact I. Qed.

Lemma respects_bind {A B} (m : M A) (k : A -> M B) :
  respects R m -> (forall a, respects R (k a)) -> respects R (bind m k).
Proof.
  intros Hm Hk w. unfold bind.
  specialize (Hm w). destruct (m w) as [a w1 l1|msg w1 l1|]; auto.
  specialize (Hk a w1). destruct (k a w1); auto; eapply inv_trans; eauto.
Qed.

Lemma respects_defer {A} (d : M unit) (m : M A) :
  respects R m -> respects R d -> respects R (defer d m).
Proof.
  intros Hm Hd w. unfold defer.
  specialize (Hm w). destruct (m w) as [a w1 l1|msg w1 l1|]; auto.
  - specialize (Hd w1). destruct (d w1); auto; eapply inv_trans; eauto.
  - specialize (Hd w1). destruct (d w1); auto; eapply inv_trans; eauto.
Qed.

Lemma respects_get_world : respects R get_world.
Proof. intros w. apply inv_refl. Qed.

Lemma respects_deref req : respects R (deref req).
Proof. intros w. unfold deref. destruct (requests w !! req); apply inv_refl. Qed.

End Invariants.

#[local] Instance log_only_Invariant P : Invariant (log_only P).
Proof.
  split; unfold log_only.
  - intros _. constructor.
  - intros _ _ _ l1 l2 H1 H2. apply Forall_app; auto.
Qed.

#[local] Instance keeps_Invariant {T} (f : World -> T) : Invariant (keeps f).
Proof.
  split; unfold keeps.
  - reflexivity.
  - intros w w1 w2 _ _ H1 H2. congruence.
Qed.

#[local] Instance fetch_frame_Invariant : Invariant fetch_frame.
Proof.
  split; unfold fetch_frame.
  - auto.
  - intros w w1 w2 _ _ (? & ? & ?) (? & ? & ?). repeat split; try congruence; lia.
Qed.

(** ** Runs that return *)

Section Wp.

Context {A : Type}.
Implicit Types (Q : A -> World -> list Event -> Prop).

Lemma wp_ret (a : A) Q w : Q a w [] -> wp (ret a) Q w.
Proof. intros HQ. exists a, w, []. auto. Qed.

Lemma wp_run (m : M A) Q w a w' l : m w = Returns a w' l -> Q a w' l -> wp m Q w.
Proof. intros Hm HQ. exists a, w', l. auto. Qed.

Lemma wp_mono (m : M A) Q Q' w :
  wp m Q w -> (forall a w' l, Q a w' l -> Q' a w' l) -> wp m Q' w.
Proof. intros (a & w' & l & Hm & HQ) H. exists a, w', l. auto. Qed.

Lemma wp_bind {B} (m : M B) (k : B -> M A) Q w :
  wp m (fun b w1 l1 => wp (k b) (fun a w2 l2 => Q a w2 (l1 ++ l2)) w1) w ->
  wp (bind m k) Q w.
Proof.
  intros (b & w1 & l1 & Hm & a & w2 & l2 & Hk & HQ).
  exists a, w2, (l1 ++ l2). split; [|exact HQ].
  unfold bind. rewrite Hm, Hk. reflexivity.
Qed.

Lemma wp_defer (d : M unit) (m : M A) Q w :
  wp m (fun a w1 l1 => wp d (fun _ w2 l2 => Q a w2 (l1 ++ l2)) w1) w ->
  wp (defer d m) Q w.
Proof.
  intros (a & w1 & l1 & Hm & u & w2 & l2 & Hd & HQ).
  exists a, w2, (l1 ++ l2). split; [|exact HQ].
  unfold defer. rewrite Hm, Hd. reflexivity.
Qed.

Lemma wp_respects R (m : M A) Q w :
  respects R m -> wp m Q w -> wp m (fun a w' l => Q a w' l /\ R w w' l) w.
Proof.
  intros HR (a & w' & l & Hm & HQ). exists a, w', l. repeat split; auto.
  specialize (HR w). rewrite Hm in HR. exact HR.
Qed.

End Wp.

Lemma wp_emit e (Q : unit -> World -> list Event -> Prop) w :
  Q tt w [e] -> wp (emit e) Q w.
Proof. intros HQ. exists tt, w, [e]. auto. Qed.

Lemma wp_deref req r (Q : http.Request -> World -> list Event -> Prop) w :
  requests w !! req = Some r -> Q r w [] -> wp (deref req) Q w.
Proof. intros Hr HQ. exists r, w, []. unfold deref. rewrite Hr. auto. Qed.

Lemma wp_get_world (Q : World -> World -> list Event -> Prop) w :
  Q w w [] -> wp get_world Q w.
Proof. intros HQ. exists w, w, []. auto. Qed.

(** ** Temporary files *)

Lemma deleteTempFile_run path w :
  deleteTempFile path w =
  Returns tt (deleteTempFile_world path w) (deleteTempFile_log path w).
Proof.
  unfold deleteTempFile, deleteTempFile_world, deleteTempFile_log.
  destruct (String.eqb path "") eqn:Hp; cbn [negb].
  - destruct w; reflexivity.
  - unfold bind, os_Remove. case_bool_decide as Hin; cbn [ret logWarning emit].
    + reflexivity.
    + replace (files w ∖ {[path]}) with (files w) by set_solver.
      destruct w; reflexivity.
Qed.

Lemma deleteTempFile_world_files path w :
  path <> "" -> path ∉ files (deleteTempFile_world path w).
Proof.
  intros Hp. unfold deleteTempFile_world. cbn [files set_files].
  destruct (String.eqb_spec path ""); [done|]. set_solver.
Qed.

Lemma redirects_of_app l1 l2 :
  redirects_of (l1 ++ l2) = redirects_of l1 ++ redirects_of l2.
Proof. apply omap_app. Qed.

Lemma redirects_of_deleteTempFile_log path w :
  redirects_of (deleteTempFile_log path w) = [].
Proof.
  unfold deleteTempFile_log.
  destruct (String.eqb path ""), (bool_decide (path ∈ files w)); reflexivity.
Qed.

(** ** Request objects *)

Lemma lookup_insert_same {A} (l : list A) i x y :
  l !! i = Some y -> <[i:=x]> l !! i = Some x.
Proof. intros H. apply list_lookup_insert_eq. eapply lookup_lt_Some, H. Qed.

Lemma lookup_alloc {A} (l : list A) x : (l ++ [x]) !! List.length l = Some x.
Proof. rewrite lookup_app_r by lia. rewrite Nat.sub_diag. reflexivity. Qed.

Lemma wp_Header_Set req r key value
    (Q : unit -> World -> list Event -> Prop) w :
  requests w !! req = Some r ->
  Q tt (set_requests w
          (<[req := http.Request_Header_Set r key value]> (requests w))) [] ->
  wp (Header_Set req key value) Q w.
Proof.
  intros Hr HQ. unfold Header_Set. apply wp_bind.
  eapply wp_deref; [exact Hr|]. eapply wp_run; [reflexivity|]. exact HQ.
Qed.

Lemma wp_AddCookie req r cookie (Q : unit -> World -> list Event -> Prop) w :
  requests w !! req = Some r ->
  Q tt (set_requests w
          (<[req := http.Request_AddCookie r cookie]> (requests w))) [] ->
  wp (AddCookie req cookie) Q w.
Proof.
  intros Hr HQ. unfold AddCookie. apply wp_bind.
  eapply wp_deref; [exact Hr|]. eapply wp_run; [reflexivity|]. exact HQ.
Qed.

Lemma wp_Do E client req r
    (Q : http.Response + error -> World -> list Event -> Prop) w :
  requests w !! req = Some r ->
  Q (match client_Do E w client r with
     | inl reply => inl (http.Response_of_Reply reply req)
     | inr err => inr err
     end) (set_issued w (S (issued w))) [EvDo client req r] ->
  wp (Do E client req) Q w.
Proof.
  intros Hr HQ. unfold Do. apply wp_bind.
  eapply wp_deref; [exact Hr|]. eapply wp_run; [reflexivity|]. exact HQ.
Qed.

Lemma wp_writeWARC E resp path err
    (Q : string * option error -> World -> list Event -> Prop) w :
  writeWARC_result E w resp = (path, err) ->
  Q (path, err)
    (set_files w (if String.eqb path "" then files w else {[path]} ∪ files w))
    [EvWriteWARC resp path err] ->
  wp (writeWARC E resp) Q w.
Proof.
  intros Hw HQ. eapply wp_run; [|exact HQ]. unfold writeWARC. rewrite Hw.
  reflexivity.
Qed.

(** ** Stepping through programs *)

(** The structure of a program is followed down to its primitive
    actions; [tac] is tried first on every piece, for the pieces that
    have a lemma of their own. *)
Ltac respects_struct_with tac :=
  repeat first
    [ tac
    | lazymatch goal with
      | |- respects _ (ret _) => apply respects_ret; typeclasses eauto
      | |- respects _ (panic _) => apply respects_panic; typeclasses eauto
      | |- respects _ out_of_fuel => apply respects_out_of_fuel
      | |- respects _ get_world => apply respects_get_world; typeclasses eauto
      | |- respects _ (deref _) => apply respects_deref; typeclasses eauto
      | |- respects _ (bind _ _) =>
          apply respects_bind; [typeclasses eauto | | intros ?]
      | |- respects _ (defer _ _) =>
          apply respects_defer; [typeclasses eauto | | ]
      | |- respects _ (Header_Set _ _ _) => unfold Header_Set
      | |- respects _ (AddCookie _ _) => unfold AddCookie
      | |- respects _ (Do _ _ _) => unfold Do
      | |- respects _ (http_NewRequest _ _ _) => unfold http_NewRequest
      | |- respects _ (match _ with _ => _ end) => case_match
      | |- respects _ (let _ := _ in _) => cbv zeta
      end ].

Ltac respects_struct := respects_struct_with fail.

Ltac wsimpl :=
  cbn [requests files Crawled QueueCount SeencheckDB issued
       set_requests set_files set_Crawled set_QueueCount set_SeencheckDB
       set_issued deleteTempFile_world
       frontier.URL frontier.ParentItem frontier.Type_ frontier.Hop
       frontier.Redirect frontier.Hash frontier.set_Redirect NewItem].

Ltac heap_lookup :=
  wsimpl;
  repeat first
    [ eassumption
    | apply lookup_alloc
    | apply lookup_app_l_Some
    | eapply lookup_insert_same ].

(** One step of a run: sequencing, the primitive actions, and a case
    analysis where the program branches on an answer of the world. *)
Ltac innermost x :=
  match x with
  | context [match ?y with _ => _ end] => innermost y
  | _ => x
  end.

Ltac wp_case :=
  match goal with
  | |- wp (match ?x with _ => _ end) _ _ =>
      let y := innermost x in
      first [ match goal with H : y = _ |- _ => rewrite H end
            | destruct y eqn:? ]
  end.

Ltac wp_step :=
  lazymatch goal with
  | H : ?m ?w = Returns _ _ _ |- wp ?m _ ?w => eapply wp_run; [exact H|]
  | |- wp (bind _ _) _ _ => apply wp_bind
  | |- wp (defer _ _) _ _ => apply wp_defer
  | |- wp (ret _) _ _ => apply wp_ret
  | |- wp (emit _) _ _ => apply wp_emit
  | |- wp get_world _ _ => apply wp_get_world
  | |- wp (deref _) _ _ => eapply wp_deref; [heap_lookup|]
  | |- wp (Header_Set _ _ _) _ _ => eapply wp_Header_Set; [heap_lookup|]
  | |- wp (AddCookie _ _) _ _ => eapply wp_AddCookie; [heap_lookup|]
  | |- wp (Do _ _ _) _ _ => eapply wp_Do; [heap_lookup|]
  | |- wp (writeWARC ?E ?resp) _ ?w =>
      first
        [ eapply wp_writeWARC; [eassumption|]
        | let p := fresh "respPath" in
          let e := fresh "err" in
          destruct (writeWARC_result E w resp) as [p e] eqn:?;
          eapply wp_writeWARC; [eassumption|] ]
  | |- wp (http_NewRequest _ _ _) _ _ => unfold http_NewRequest
  | |- wp (Body_Close _) _ _ => apply wp_emit
  | |- wp (logWarning _ _) _ _ => apply wp_emit
  | |- wp (logCrawlSuccess _ _) _ _ => apply wp_emit
  | |- wp (go_queueOutlinks _ _) _ _ => apply wp_emit
  | |- wp (Crawled_Incr _) _ _ => eapply wp_run; [reflexivity|]
  | |- wp (QueueCount_Incr _) _ _ => eapply wp_run; [reflexivity|]
  | |- wp (Seen _ _) _ _ => eapply wp_run; [reflexivity|]
  | |- wp (IsSeen _) _ _ => eapply wp_run; [reflexivity|]
  | |- wp (logAssetWarning _ _ _) _ _ => eapply wp_run; [reflexivity|]
  | |- wp (fun _ => Returns _ _ _) _ _ => eapply wp_run; [reflexivity|]
  | |- wp (deleteTempFile _) _ _ => eapply wp_run; [apply deleteTempFile_run|]
  | |- wp (match _ with _ => _ end) _ _ => wp_case
  | |- wp (let _ := _ in _) _ _ => cbv zeta
  end; wsimpl.

Ltac respects_leaf :=
  intros ?w;
  cbv [emit Crawled_Incr QueueCount_Incr Body_Close logWarning os_Remove
       writeWARC IsSeen Seen logCrawlSuccess go_queueOutlinks logAssetWarning];
  repeat case_match; simplify_eq; try exact I.

(** ** The fetch executor: which events, which parts of the world *)

Section Fetch.

Variable E : Env.
Variable c : Crawl.

Lemma deleteTempFile_fetch_events path :
  respects (log_only (fun e => is_fetch_event e = true)) (deleteTempFile path).
Proof.
  unfold deleteTempFile. respects_struct; respects_leaf;
    repeat constructor.
Qed.

Lemma executeGET_hop_fetch_events item req :
  respects (log_only (fun e => is_fetch_event e = true))
           (executeGET_hop E c item req).
Proof.
  unfold executeGET_hop, executeGET_fetch, executeGET_redirect, http_NewRequest, Do.
  respects_struct; try apply deleteTempFile_fetch_events;
    respects_leaf; repeat constructor.
Qed.

Lemma executeGET_fetch_events fuel : forall item req,
  respects (log_only (fun e => is_fetch_event e = true))
           (executeGET E c fuel item req).
Proof.
  induction fuel as [|fuel IH]; intros item req; cbn [executeGET].
  - apply respects_out_of_fuel.
  - apply respects_bind; [apply _ | apply executeGET_hop_fetch_events |].
    intros [res|newItem newReq]; [apply respects_ret; apply _ | apply IH].
Qed.

End Fetch.

Section FetchRuns.

Variable E : Env.
Variable c : Crawl.

Lemma executeGET_hop_fetch_frame item req :
  respects fetch_frame (executeGET_hop E c item req).
Proof.
  unfold executeGET_hop, executeGET_fetch, executeGET_redirect, http_NewRequest,
    Do, Header_Set, deleteTempFile.
  respects_struct; respects_leaf; unfold fetch_frame; wsimpl;
    rewrite ?length_app, ?length_insert; repeat split; auto; lia.
Qed.

Lemma executeGET_fetch_frame fuel : forall item req,
  respects fetch_frame (executeGET E c fuel item req).
Proof.
  induction fuel as [|fuel IH]; intros item req; cbn [executeGET].
  - apply respects_out_of_fuel.
  - apply respects_bind; [apply _ | apply executeGET_hop_fetch_frame |].
    intros [res|newItem newReq]; [apply respects_ret; apply _ | apply IH].
Qed.

Lemma executeGET_hop_returns item req w :
  is_Some (requests w !! req) ->
  wp (executeGET_hop E c item req)
     (fun next w1 l1 =>
        redirects_of l1 = [frontier.Redirect item] /\
        match next with
        | Done (Some resp, _, _) =>
            http.Request_of resp = req /\ is_Some (requests w1 !! req)
        | Done (None, _, err) => err <> None
        | Recurse newItem newReq =>
            is_Some (requests w1 !! newReq) /\
            frontier.Redirect item < MaxRedirect c /\
            frontier.Redirect newItem = wrap_int64 (frontier.Redirect item + 1)
        end) w.
Proof.
  intros [r Hr].
  unfold executeGET_hop, executeGET_fetch, executeGET_redirect.
  repeat wp_step.
  all: rewrite ?redirects_of_app, ?redirects_of_deleteTempFile_log.
  all: repeat split; try reflexivity; try discriminate; eauto.
  all: try (apply lookup_lt_is_Some; rewrite !length_insert, length_app;
            cbn [List.length]; lia).
  all: try match goal with
       | H : _ || _ = false |- _ =>
           apply orb_false_elim in H; destruct H as [_ H]; lia
       end.
Qed.

Lemma executeGET_returns fuel : forall item req w,
  in_int64 (MaxRedirect c) ->
  in_int64 (frontier.Redirect item) ->
  is_Some (requests w !! req) ->
  (Z.to_nat (MaxRedirect c - frontier.Redirect item) < fuel)%nat ->
  wp (executeGET E c fuel item req)
     (fun res w' log =>
        counts_redirects c item log /\
        match res with
        | (Some resp, _, _) => is_Some (requests w' !! http.Request_of resp)
        | (None, _, err) => err <> None
        end) w.
Proof.
  induction fuel as [|fuel IH]; intros item req w HM Hi Hreq Hfuel; [lia|].
  cbn [executeGET]. apply wp_bind.
  eapply wp_mono; [apply executeGET_hop_returns, Hreq|].
  intros [[[[resp|] respPath] err]|newItem newReq] w1 l1 [Hl1 Hnext];
    cbn beta iota.
  - apply wp_ret. rewrite app_nil_r. destruct Hnext as [<- Hv]. split; [|exact Hv].
    exists 0%nat. rewrite Hl1. split; [reflexivity|lia].
  - apply wp_ret. rewrite app_nil_r. split; [|exact Hnext].
    exists 0%nat. rewrite Hl1. split; [reflexivity|lia].
  - destruct Hnext as (Hv & Hlt & Hnew).
    rewrite wrap_int64_id in Hnew by (unfold in_int64 in *; lia).
    eapply wp_mono.
    { apply IH; auto.
      - rewrite Hnew. unfold in_int64 in *. lia.
      - rewrite Hnew. lia. }
    intros [[resp respPath] err] w2 l2 [(n & Hl2 & Hn) Hres].
    split; [|exact Hres].
    exists (S n). rewrite redirects_of_app, Hl1, Hl2, Hnew. split; [|lia].
    rewrite (seqZ_cons (frontier.Redirect item)) by lia.
    cbn [app]. do 2 f_equal. lia.
Qed.

Lemma executeGET_fetch_keeps_requests req :
  respects (keeps requests) (executeGET_fetch E c req).
Proof.
  unfold executeGET_fetch, Do.
  respects_struct; respects_leaf; reflexivity.
Qed.

(** C2. The redirect-following recursion of [executeGET] terminates:
    with fuel beyond [MaxRedirect - Redirect] every call returns; the
    successive calls carry the redirect counts [r, r+1, ..., r+n], none
    of the recursive ones above [MaxRedirect]; and when a redirect
    response arrives with the budget exhausted or a [Location] equal to
    the request URL, that response and its archive path are returned with
    a nil error. *)
Theorem executeGET_terminates fuel item req w :
  in_int64 (MaxRedirect c) ->
  in_int64 (frontier.Redirect item) ->
  is_Some (requests w !! req) ->
  (Z.to_nat (MaxRedirect c - frontier.Redirect item) < fuel)%nat ->
  wp (executeGET E c fuel item req)
     (fun _ _ log => counts_redirects c item log) w /\
  (forall r resp respPath w1 l1,
     requests w !! req = Some r ->
     executeGET_fetch E c req w = Returns (inl (resp, respPath)) w1 l1 ->
     isRedirection E (http.StatusCode resp) = true ->
     http.Header_Get (http.RespHeader resp) "location"
       = url.String (http.URL r)
     \/ MaxRedirect c <= frontier.Redirect item ->
     executeGET E c fuel item req w =
     Returns (Some resp, respPath, None) w1 (EvExecuteGET item req :: l1)).
Proof.
  intros HM Hi Hreq Hfuel. split.
  - eapply wp_mono; [apply executeGET_returns; assumption|].
    intros res w' l [H _]. exact H.
  - intros r resp respPath w1 l1 Hr Hfetch Hred Hstop.
    destruct fuel as [|fuel']; [lia|]. cbn [executeGET].
    pose proof (executeGET_fetch_keeps_requests req w) as Hkeep.
    rewrite Hfetch in Hkeep. unfold keeps in Hkeep.
    unfold executeGET_hop, executeGET_redirect, bind at 1 2 3, emit.
    rewrite Hfetch, Hred. unfold bind, deref. rewrite Hkeep, Hr.
    assert ((http.Header_Get (http.RespHeader resp) "location"
               =? url.String (http.URL r))%string
            || (MaxRedirect c <=? frontier.Redirect item) = true) as ->.
    { apply orb_true_iff. destruct Hstop as [->| Hle].
      - left. apply String.eqb_refl.
      - right. lia. }
    cbn [ret]. rewrite !app_nil_r. reflexivity.
Qed.

End FetchRuns.

Lemma executeGET_terminates_witness :
  wp (executeGET Demo.env (Demo.crawl true false) 3
        (Demo.seed "http://self.test/") 0%nat)
     (fun _ _ log =>
        counts_redirects (Demo.crawl true false)
                         (Demo.seed "http://self.test/") log)
     (Demo.world1 "http://self.test/") /\
  exists resp w1 l1,
    executeGET Demo.env (Demo.crawl true false) 3
      (Demo.seed "http://self.test/") 0%nat (Demo.world1 "http://self.test/")
    = Returns (Some resp, "/tmp/1.temp", None) w1
              (EvExecuteGET (Demo.seed "http://self.test/") 0%nat :: l1).
Proof.
  destruct (executeGET_terminates Demo.env (Demo.crawl true false) 3
              (Demo.seed "http://self.test/") 0%nat
              (Demo.world1 "http://self.test/")) as [Hruns Hstop].
  - unfold in_int64. cbn. lia.
  - unfold in_int64. cbn. lia.
  - eexists. reflexivity.
  - vm_compute. lia.
  - split; [exact Hruns|].
    eexists _, _, _. eapply Hstop.
    + reflexivity.
    + vm_compute. reflexivity.
    + reflexivity.
    + left. reflexivity.
Defined.

(** ** Archival and the crawled counter *)

#[local] Instance crawled_counts_Invariant : Invariant crawled_counts.
Proof.
  split; unfold crawled_counts, warc_writes, crawled_incrs.
  - intros w. cbn. rewrite Z.add_0_r. auto.
  - intros w w1 w2 l1 l2 (Hr1 & Hc1 & Hi1) (Hr2 & Hc2 & Hi2).
    rewrite List.filter_app, length_app, omap_app, Hi1, Hi2, replicate_add.
    split; [auto|]. split; [|reflexivity].
    rewrite Hc2, <- wrap_int64_add_l, Hc1, wrap_int64_add_l.
    f_equal. lia.
Qed.

Ltac inner_case :=
  match goal with
  | |- context [match ?x with _ => _ end] =>
      lazymatch x with
      | context [match _ with _ => _ end] => fail
      | _ => destruct x eqn:?
      end
  end.

Section Archive.

Variable E : Env.
Variable c : Crawl.

Lemma executeGET_fetch_crawled_counts req :
  respects crawled_counts (executeGET_fetch E c req).
Proof.
  intros w.
  unfold executeGET_fetch, Do, writeWARC, Crawled_Incr, Body_Close, emit,
    bind, deref, ret.
  repeat (inner_case; wsimpl).
  all: unfold crawled_counts, warc_writes, crawled_incrs;
    cbn [app List.filter omap list_omap List.length replicate Z.of_nat
         Crawled set_Crawled set_files set_issued Pos.of_succ_nat Pos.succ].
  all: rewrite ?Z.add_0_r; split; [auto using wrap_int64_range|];
    split; [|reflexivity]; try reflexivity.
  all: rewrite wrap_int64_id by apply wrap_int64_range; reflexivity.
Qed.

Lemma executeGET_hop_crawled_counts item req :
  respects crawled_counts (executeGET_hop E c item req).
Proof.
  unfold executeGET_hop.
  apply respects_bind; [apply _| |intros _].
  { intros w. unfold emit, crawled_counts. cbn. rewrite Z.add_0_r. auto. }
  apply respects_bind; [apply _|apply executeGET_fetch_crawled_counts|].
  intros [[resp respPath]|res]; [|apply respects_ret; apply _].
  unfold executeGET_redirect, http_NewRequest, Header_Set, deleteTempFile.
  respects_struct; respects_leaf; unfold crawled_counts; cbn;
    rewrite ?Z.add_0_r; auto.
Qed.

Lemma executeGET_crawled_counts fuel : forall item req,
  respects crawled_counts (executeGET E c fuel item req).
Proof.
  induction fuel as [|fuel IH]; intros item req; cbn [executeGET].
  - apply respects_out_of_fuel.
  - apply respects_bind; [apply _ | apply executeGET_hop_crawled_counts |].
    intros [res|newItem newReq]; [apply respects_ret; apply _ | apply IH].
Qed.

(** C6. When archival is on and the WARC write of a call of [executeGET]
    fails, the response body is closed and the error is returned,
    together with the response and the path, the crawled counter being
    left as it was; and over any run of [executeGET] the crawled counter
    is incremented by one exactly once per successful WARC write. *)
Theorem executeGET_archive r reply respPath err fuel item req w :
  WARC c = true ->
  in_int64 (MaxRedirect c) ->
  in_int64 (frontier.Redirect item) ->
  in_int64 (Crawled w) ->
  (Z.to_nat (MaxRedirect c - frontier.Redirect item) < fuel)%nat ->
  requests w !! req = Some r ->
  (client_Do E w (client_for E c r) r = inl reply ->
   writeWARC_result E (set_issued w (S (issued w)))
                    (http.Response_of_Reply reply req) = (respPath, Some err) ->
   exists w',
     executeGET E c fuel item req w =
     Returns (Some (http.Response_of_Reply reply req), respPath, Some err) w'
             [EvExecuteGET item req; EvDo (client_for E c r) req r;
              EvWriteWARC (http.Response_of_Reply reply req) respPath (Some err);
              EvBodyClose (http.Response_of_Reply reply req)] /\
     Crawled w' = Crawled w) /\
  wp (executeGET E c fuel item req)
     (fun _ w' log =>
        crawled_incrs log = replicate (warc_writes log) 1 /\
        Crawled w' = wrap_int64 (Crawled w + Z.of_nat (warc_writes log))) w.
Proof.
  intros HW HM Hi HC Hfuel Hr. split.
  - intros Hdo Hwarc. destruct fuel as [|fuel']; [lia|].
    assert (wp (executeGET E c (S fuel') item req)
              (fun res w' l =>
                 res = (Some (http.Response_of_Reply reply req), respPath,
                        Some err) /\
                 l = [EvExecuteGET item req; EvDo (client_for E c r) req r;
                      EvWriteWARC (http.Response_of_Reply reply req) respPath
                                  (Some err);
                      EvBodyClose (http.Response_of_Reply reply req)] /\
                 Crawled w' = Crawled w) w)
      as (res & w' & l & Hrun & -> & -> & HC').
    { cbn [executeGET]. unfold executeGET_hop, executeGET_fetch.
      repeat wp_step. auto. }
    exists w'. auto.
  - eapply wp_mono.
    { apply (wp_respects crawled_counts); [apply executeGET_crawled_counts|].
      apply executeGET_returns; eauto. }
    cbn beta. intros res w' l [_ (Hin & Hc & Hincr)]. split; [exact Hincr|].
    rewrite <- Hc. symmetry. apply wrap_int64_id. auto.
Qed.

End Archive.

Lemma executeGET_archive_witness :
  (exists w',
     executeGET Demo.env (Demo.crawl true false) 3
       (Demo.seed "http://full.test/") 0%nat (Demo.world1 "http://full.test/")
     = Returns (Some (http.mkResponse 500 {["Content-Type" := "text/html"]}
                                      [] "" 0%nat),
                "", Some "no space left on device") w'
               [EvExecuteGET (Demo.seed "http://full.test/") 0%nat;
                EvDo (http.mkClient "direct") 0%nat
                     (Demo.request_for "http://full.test/");
                EvWriteWARC (http.mkResponse 500
                               {["Content-Type" := "text/html"]} [] "" 0%nat)
                            "" (Some "no space left on device");
                EvBodyClose (http.mkResponse 500
                               {["Content-Type" := "text/html"]} [] "" 0%nat)]
     /\ Crawled w' = 0) /\
  wp (executeGET Demo.env (Demo.crawl true false) 3
        (Demo.seed "http://full.test/") 0%nat)
     (fun _ w' log =>
        crawled_incrs log = replicate (warc_writes log) 1 /\
        Crawled w' = wrap_int64 (0 + Z.of_nat (warc_writes log)))
     (Demo.world1 "http://full.test/").
Proof.
  destruct (executeGET_archive Demo.env (Demo.crawl true false)
              (Demo.request_for "http://full.test/")
              (http.mkReply 500 {["Content-Type" := "text/html"]} [] "")
              "" "no space left on device" 3
              (Demo.seed "http://full.test/") 0%nat
              (Demo.world1 "http://full.test/")) as [Hfail Hcount].
  - reflexivity.
  - unfold in_int64. cbn. lia.
  - unfold in_int64. cbn. lia.
  - unfold in_int64. cbn. lia.
  - vm_compute. lia.
  - reflexivity.
  - split; [|exact Hcount]. apply Hfail; vm_compute; reflexivity.
Defined.


(** ** Temp files along a redirect chain *)

Lemma temp_file_pending_app l1 l2 s :
  temp_file_pending (l1 ++ l2) s =
  match temp_file_pending l1 s with
  | Some s' => temp_file_pending l2 s'
  | None => None
  end.
Proof.
  revert s. induction l1 as [|e l1 IH]; intros s; [reflexivity|].
  destruct e; cbn [app temp_file_pending]; auto.
  destruct (String.eqb s ""); auto.
Qed.

Lemma temp_file_pending_delete path w :
  temp_file_pending (deleteTempFile_log path w) path = Some "".
Proof.
  unfold deleteTempFile_log.
  destruct (String.eqb_spec path "") as [->|Hne]; [reflexivity|].
  destruct (bool_decide (path ∈ files w)); cbn [temp_file_pending];
    rewrite String.eqb_refl; reflexivity.
Qed.

Lemma wp_and {A} (m : M A) (Q1 Q2 : A -> World -> list Event -> Prop) w :
  wp m Q1 w -> wp m Q2 w -> wp m (fun a w' l => Q1 a w' l /\ Q2 a w' l) w.
Proof.
  intros (a & w' & l & Hm & H1) (a2 & w2 & l2 & Hm2 & H2).
  rewrite Hm in Hm2. injection Hm2 as <- <- <-.
  exists a, w', l. auto.
Qed.

Section TempFiles.

Variable E : Env.
Variable c : Crawl.

Lemma executeGET_hop_temp_files item req w :
  is_Some (requests w !! req) ->
  wp (executeGET_hop E c item req)
     (fun next w1 l1 =>
        match next with
        | Done (_, respPath, _) =>
            temp_file_pending l1 "" = Some respPath /\
            files w1 ⊆ files w ∪ {[respPath]}
        | Recurse _ _ =>
            temp_file_pending l1 "" = Some "" /\ files w1 ⊆ files w
        end) w.
Proof.
  intros [r Hr].
  unfold executeGET_hop, executeGET_fetch, executeGET_redirect.
  repeat wp_step.
  all: rewrite ?app_nil_r; cbn [app temp_file_pending String.eqb].
  all: rewrite ?temp_file_pending_delete.
  all: split; [reflexivity|].
  all: try destruct (String.eqb respPath ""); set_solver.
Qed.

(** C3. Along a redirect chain every call of [executeGET] begins with no
    temp file pending: the file archived by the call before has been
    removed by then. The path returned is the one pending at the end,
    that of the last call, and no file is left on disk that was not
    there before, other than the one returned. *)
Theorem executeGET_temp_files fuel : forall item req w,
  in_int64 (MaxRedirect c) ->
  in_int64 (frontier.Redirect item) ->
  is_Some (requests w !! req) ->
  (Z.to_nat (MaxRedirect c - frontier.Redirect item) < fuel)%nat ->
  wp (executeGET E c fuel item req)
     (fun res w' log =>
        temp_file_pending log "" = Some (snd (fst res)) /\
        files w' ⊆ files w ∪ {[snd (fst res)]}) w.
Proof.
  induction fuel as [|fuel IH]; intros item req w HM Hi Hreq Hfuel; [lia|].
  cbn [executeGET]. apply wp_bind.
  eapply wp_mono.
  { apply wp_and; [apply executeGET_hop_returns, Hreq
                  |apply executeGET_hop_temp_files, Hreq]. }
  intros [[[resp respPath] err]|newItem newReq] w1 l1 [[_ Hnext] Htemp];
    cbn beta iota.
  - apply wp_ret. rewrite app_nil_r. exact Htemp.
  - destruct Hnext as (Hv & Hlt & Hnew). destruct Htemp as [Hp Hf].
    rewrite wrap_int64_id in Hnew by (unfold in_int64 in *; lia).
    eapply wp_mono.
    { apply IH; auto.
      - rewrite Hnew. unfold in_int64 in *. lia.
      - rewrite Hnew. lia. }
    intros res w2 l2 [Hp2 Hf2]. cbn beta.
    rewrite temp_file_pending_app, Hp. split; [exact Hp2|set_solver].
Qed.

End TempFiles.

Lemma executeGET_temp_files_witness :
  wp (executeGET Demo.env (Demo.crawl true false) 3
        (Demo.seed "http://a.test/") 0%nat)
     (fun res w' log =>
        temp_file_pending log "" = Some (snd (fst res)) /\
        files w' ⊆ files (Demo.world1 "http://a.test/") ∪ {[snd (fst res)]})
     (Demo.world1 "http://a.test/").
Proof.
  apply executeGET_temp_files.
  - unfold in_int64. cbn. lia.
  - unfold in_int64. cbn. lia.
  - eexists. reflexivity.
  - vm_compute. lia.
Defined.

(** ** Headers of the request of a followed redirect *)

Section RedirectHeaders.

Variable E : Env.
Variable c : Crawl.

Lemma executeGET_hop_issued item req r w :
  requests w !! req = Some r ->
  wp (executeGET_hop E c item req)
     (fun next w1 l1 =>
        issued_requests l1 = [r] /\
        match next with
        | Done _ => True
        | Recurse _ newReq =>
            exists u,
              requests w1 !! newReq =
              Some {| http.Method := "GET"; http.URL := u; http.Header := ∅ |}
        end) w.
Proof.
  intros Hr.
  unfold executeGET_hop, executeGET_fetch, executeGET_redirect.
  repeat wp_step.
  all: unfold issued_requests; rewrite ?omap_app.
  all: split; [unfold deleteTempFile_log; repeat case_match; reflexivity|].
  all: auto.
  all: eexists; rewrite !list_lookup_insert_ne
         by (apply lookup_lt_Some in Hr; lia); apply lookup_alloc.
Qed.

(** Whatever the web answers, the request sent by a recursive call of
    [executeGET] carries no header at all: lines 66-67 set the headers
    of the request that was already sent. *)
Lemma executeGET_followed_requests_bare fuel : forall item req r w,
  in_int64 (MaxRedirect c) ->
  in_int64 (frontier.Redirect item) ->
  requests w !! req = Some r ->
  (Z.to_nat (MaxRedirect c - frontier.Redirect item) < fuel)%nat ->
  wp (executeGET E c fuel item req)
     (fun _ _ log =>
        exists rest,
          issued_requests log = r :: rest /\
          Forall (fun r' => http.Header r' = ∅) rest) w.
Proof.
  induction fuel as [|fuel IH]; intros item req r w HM Hi Hreq Hfuel; [lia|].
  cbn [executeGET]. apply wp_bind.
  eapply wp_mono.
  { apply wp_and; [apply executeGET_hop_returns; eauto
                  |apply executeGET_hop_issued, Hreq]. }
  intros [res|newItem newReq] w1 l1 [[_ Hnext] [Hl1 Hnew]]; cbn beta iota.
  - apply wp_ret. rewrite app_nil_r. exists []. split; [exact Hl1|constructor].
  - destruct Hnext as (_ & Hlt & HR). destruct Hnew as [u Hu].
    rewrite wrap_int64_id in HR by (unfold in_int64 in *; lia).
    eapply wp_mono.
    { eapply IH; eauto.
      - rewrite HR. unfold in_int64 in *. lia.
      - rewrite HR. lia. }
    cbn beta. intros _ _ l2 (rest & Hl2 & Hrest).
    eexists. unfold issued_requests in *. rewrite omap_app, Hl1, Hl2.
    split; [reflexivity|]. constructor; [reflexivity|exact Hrest].
Qed.

End RedirectHeaders.

(** C1 (the code departs from it). On a web where [a.test] redirects to
    [b.test], with the user agent configured as "Zeno": the request sent
    to [b.test] has neither a [User-Agent] nor a [Referer] header; after
    the run it is the request object of [a.test], sent before, that
    holds the [Referer]. *)
Theorem executeGET_redirect_headers :
  exists res w' log,
    executeGET Demo.env (Demo.crawl true false) 3
      (Demo.seed "http://a.test/") 0%nat (Demo.world1 "http://a.test/")
    = Returns res w' log /\
    map sent_headers (issued_requests log) =
      [("http://a.test/", ("Zeno", "")); ("http://b.test/", ("", ""))] /\
    map sent_headers (requests w') =
      [("http://a.test/", ("Zeno", "http://a.test/"));
       ("http://b.test/", ("", ""))].
Proof.
  eexists _, _, _. split; [vm_compute; reflexivity|].
  split; vm_compute; reflexivity.
Qed.

(** ** The asset capturer *)

Lemma wp_AddCookies req cookies : forall w,
  is_Some (requests w !! req) ->
  wp (AddCookies req cookies)
     (fun _ w' l =>
        l = [] /\ files w' = files w /\ Crawled w' = Crawled w /\
        QueueCount w' = QueueCount w /\ SeencheckDB w' = SeencheckDB w /\
        is_Some (requests w' !! req)) w.
Proof.
  induction cookies as [|cookie rest IH]; intros w [r Hr]; cbn [AddCookies].
  - apply wp_ret. eauto 10.
  - repeat wp_step. eapply wp_mono.
    { apply IH. wsimpl. eexists. eapply lookup_insert_same, Hr. }
    cbn beta. wsimpl. intros _ w' l (-> & ? & ? & ? & ? & ?). auto 10.
Qed.

Lemma is_fetch_asset_event e :
  is_fetch_event e = true -> is_asset_event e = true.
Proof. destruct e; cbn; congruence. Qed.

Lemma deleteTempFile_log_fetch_events path w :
  Forall (fun e => is_fetch_event e = true) (deleteTempFile_log path w).
Proof.
  unfold deleteTempFile_log.
  destruct (String.eqb path ""), (bool_decide (path ∈ files w));
    repeat constructor.
Qed.

Ltac asset_events :=
  rewrite ?Forall_app; repeat split;
  first
    [ solve [repeat constructor]
    | eapply Forall_impl; [eassumption | apply is_fetch_asset_event]
    | eapply Forall_impl;
      [apply deleteTempFile_log_fetch_events | apply is_fetch_asset_event] ].

Section AssetCapture.

Variable E : Env.
Variable c : Crawl.

Lemma executeGET_spec fuel item req w :
  in_int64 (MaxRedirect c) ->
  in_int64 (frontier.Redirect item) ->
  is_Some (requests w !! req) ->
  (Z.to_nat (MaxRedirect c - frontier.Redirect item) < fuel)%nat ->
  wp (executeGET E c fuel item req)
     (fun res w' log =>
        match res with
        | (Some resp, _, _) => is_Some (requests w' !! http.Request_of resp)
        | (None, _, err) => err <> None
        end /\
        fetch_frame w w' log /\
        Forall (fun e => is_fetch_event e = true) log) w.
Proof.
  intros HM Hi Hreq Hfuel.
  eapply wp_mono.
  { apply (wp_respects (log_only (fun e => is_fetch_event e = true)));
      [apply executeGET_fetch_events|].
    apply (wp_respects fetch_frame); [apply executeGET_fetch_frame|].
    apply executeGET_returns; eauto. }
  cbn beta. intros res w' l [[[_ H1] H2] H3]. auto.
Qed.

Lemma captureAsset_spec fuel item cookies p w :
  in_int64 (MaxRedirect c) ->
  in_int64 (frontier.Redirect item) ->
  (Z.to_nat (MaxRedirect c - frontier.Redirect item) < fuel)%nat ->
  frontier.ParentItem item = Some p ->
  wp (captureAsset E c fuel item cookies)
     (fun _ w' log =>
        QueueCount w' = QueueCount w /\
        Forall (fun e => is_asset_event e = true) log /\
        let hash := FormatUint (frontier.Hash item) in
        if Seencheck c then
          if bool_decide (is_Some (SeencheckDB w !! hash)) then
            log = [EvCaptureAsset item cookies; EvIsSeen hash true]
          else
            (exists rest,
               log = [EvCaptureAsset item cookies; EvIsSeen hash false;
                      EvSeen hash (frontier.Type_ item)] ++ rest) /\
            SeencheckDB w' = <[hash := frontier.Type_ item]> (SeencheckDB w)
        else SeencheckDB w' = SeencheckDB w) w.
Proof.
  intros HM Hi Hfuel Hp.
  unfold captureAsset.
  repeat wp_step.
  all: try (eapply wp_mono;
            [apply wp_AddCookies; wsimpl; eexists;
             eapply lookup_insert_same, lookup_alloc|];
            cbn beta; wsimpl;
            intros _ w1 l1 (-> & Hf1 & Hc1 & Hq1 & Hs1 & Hv1);
            apply wp_bind;
            eapply wp_mono; [apply executeGET_spec; auto|];
            cbn beta;
            intros [[[resp|] respPath] [err|]] w2 l2
                   (Hres & (Hq2 & Hs2 & _) & Hev);
            try congruence; repeat wp_step).
  all: split; [congruence|]; split; [asset_events|].
  all: try (split; [eexists; cbn [app]; reflexivity|]).
  all: first [reflexivity | congruence].
Qed.

(** C5. With the seencheck on: when the hash of the asset item is in the
    seen-set, [captureAsset] returns nil at once, the world is unchanged
    and no request is sent; when it is not, the first thing
    [captureAsset] does after the lookup, before any request, is to mark
    the hash as seen, and it is still marked when [captureAsset]
    returns. *)
Theorem captureAsset_seencheck :
  Seencheck c = true ->
  (forall fuel item cookies w,
     is_Some (SeencheckDB w !! FormatUint (frontier.Hash item)) ->
     captureAsset E c fuel item cookies w =
     Returns None w
             [EvCaptureAsset item cookies;
              EvIsSeen (FormatUint (frontier.Hash item)) true]) /\
  (forall fuel item cookies p w,
     in_int64 (MaxRedirect c) ->
     in_int64 (frontier.Redirect item) ->
     (Z.to_nat (MaxRedirect c - frontier.Redirect item) < fuel)%nat ->
     frontier.ParentItem item = Some p ->
     SeencheckDB w !! FormatUint (frontier.Hash item) = None ->
     wp (captureAsset E c fuel item cookies)
        (fun _ w' log =>
           (exists rest,
              log = [EvCaptureAsset item cookies;
                     EvIsSeen (FormatUint (frontier.Hash item)) false;
                     EvSeen (FormatUint (frontier.Hash item))
                            (frontier.Type_ item)] ++ rest) /\
           SeencheckDB w' !! FormatUint (frontier.Hash item)
             = Some (frontier.Type_ item)) w).
Proof.
  intros HS. split.
  - intros fuel item cookies w Hseen.
    unfold captureAsset, bind, emit, IsSeen. rewrite HS.
    rewrite bool_decide_eq_true_2 by exact Hseen. reflexivity.
  - intros fuel item cookies p w HM Hi Hfuel Hp Hdb.
    eapply wp_mono; [eapply captureAsset_spec; eauto|].
    cbn beta zeta. rewrite HS, Hdb.
    rewrite bool_decide_eq_false_2 by (intros [? ?]; discriminate).
    intros _ w' log (_ & _ & Hlog & Hw'). split; [exact Hlog|].
    rewrite Hw'. apply lookup_insert_eq.
Qed.

End AssetCapture.

Lemma captureAsset_seencheck_witness :
  captureAsset Demo.env (Demo.crawl true true) 3 Demo.asset_img ["sid=1"]
    Demo.world_seen
  = Returns None Demo.world_seen
            [EvCaptureAsset Demo.asset_img ["sid=1"]; EvIsSeen "21" true] /\
  wp (captureAsset Demo.env (Demo.crawl true true) 3 Demo.asset_img ["sid=1"])
     (fun _ w' log =>
        (exists rest,
           log = [EvCaptureAsset Demo.asset_img ["sid=1"];
                  EvIsSeen "21" false; EvSeen "21" "asset"] ++ rest) /\
        SeencheckDB w' !! "21" = Some "asset") Demo.world0.
Proof.
  destruct (captureAsset_seencheck Demo.env (Demo.crawl true true) eq_refl)
    as [Hseen Hnew].
  split.
  - apply (Hseen 3%nat Demo.asset_img ["sid=1"] Demo.world_seen).
    vm_compute. eexists. reflexivity.
  - apply (Hnew 3%nat Demo.asset_img ["sid=1"] (Demo.seed "http://b.test/")
             Demo.world0).
    + unfold in_int64. cbn. lia.
    + unfold in_int64. cbn. lia.
    + vm_compute. lia.
    + reflexivity.
    + reflexivity.
Defined.




(** ** The asset loop and the queue counter *)

Lemma queue_incrs_asset_events l :
  Forall (fun e => is_asset_event e = true) l -> queue_incrs l = [].
Proof.
  induction 1 as [|e l He _ IH]; [reflexivity|].
  unfold queue_incrs in *. cbn [omap list_omap]. fold (@omap list _).
  destruct e; cbn in He; try discriminate; exact IH.
Qed.

Section AssetLoop.

Variable E : Env.
Variable c : Crawl.

Lemma Capture_assets_loop_spec fuel item resp assets : forall w,
  in_int64 (MaxRedirect c) ->
  (Z.to_nat (MaxRedirect c) < fuel)%nat ->
  in_int64 (QueueCount w) ->
  wp (Capture_assets_loop E c fuel item resp assets)
     (fun _ w' log =>
        queue_incrs log = replicate (List.length assets) (-1) /\
        QueueCount w'
          = wrap_int64 (QueueCount w - Z.of_nat (List.length assets))) w.
Proof.
  induction assets as [|asset rest IH]; intros w HM Hfuel HQ;
    cbn [Capture_assets_loop].
  - apply wp_ret. split; [reflexivity|].
    cbn [List.length Z.of_nat]. rewrite Z.sub_0_r, wrap_int64_id; auto.
  - assert (forall w1 l1,
              QueueCount w1 = wrap_int64 (QueueCount w + -1) ->
              queue_incrs l1 = [] ->
              wp (Capture_assets_loop E c fuel item resp rest)
                 (fun _ w2 l2 =>
                    queue_incrs ([EvQueueCountIncr (-1)] ++ l1 ++ l2) =
                    replicate (List.length (asset :: rest)) (-1) /\
                    QueueCount w2 =
                    wrap_int64
                      (QueueCount w - Z.of_nat (List.length (asset :: rest))))
                 w1) as Hrest.
    { intros w1 l1 Hq1 Hl1. eapply wp_mono.
      { apply IH; auto. rewrite Hq1. apply wrap_int64_range. }
      cbn beta. intros _ w2 l2 [Hl2 Hq2]. split.
      - unfold queue_incrs in *. rewrite !omap_app, Hl1, Hl2. reflexivity.
      - rewrite Hq2, Hq1. unfold Z.sub. rewrite wrap_int64_add_l.
        f_equal. cbn [List.length]. lia. }
    repeat wp_step.
    + apply Hrest; reflexivity.
    + eapply wp_mono.
      { eapply (captureAsset_spec E c) with (p := item); auto.
        - unfold in_int64. cbn. lia.
        - cbn [NewItem frontier.Redirect]. rewrite Z.sub_0_r. exact Hfuel. }
      cbn beta. wsimpl. intros err w1 l1 (Hq1 & Hev & _).
      apply queue_incrs_asset_events in Hev.
      destruct err; repeat wp_step.
      * apply Hrest; [exact Hq1|].
        unfold queue_incrs in *. rewrite omap_app, Hev. reflexivity.
      * rewrite app_nil_r. apply Hrest; auto.
Qed.

(** C10. Over one run of the asset block of [Capture] (lines 229-253)
    the queue counter is raised once, by the number of assets, and then
    lowered by one once per asset, whether the asset is skipped as the
    page itself, captured or fails; at the end the counter is back at
    its value. *)
Theorem Capture_assets_queue_count fuel item resp assets w :
  in_int64 (MaxRedirect c) ->
  (Z.to_nat (MaxRedirect c) < fuel)%nat ->
  in_int64 (QueueCount w) ->
  wp (Capture_assets E c fuel item resp assets)
     (fun _ w' log =>
        queue_incrs log =
          Z.of_nat (List.length assets)
          :: replicate (List.length assets) (-1) /\
        QueueCount w' = QueueCount w) w.
Proof.
  intros HM Hfuel HQ. unfold Capture_assets. repeat wp_step.
  eapply wp_mono.
  { apply Capture_assets_loop_spec; auto. wsimpl. apply wrap_int64_range. }
  cbn beta. wsimpl. intros _ w' l [Hl Hq]. split.
  - unfold queue_incrs in *. rewrite omap_app, Hl. reflexivity.
  - rewrite Hq. unfold Z.sub. rewrite wrap_int64_add_l.
    rewrite <- (wrap_int64_id (QueueCount w)) at 2 by exact HQ.
    f_equal. lia.
Qed.

End AssetLoop.

Lemma Capture_assets_queue_count_witness :
  wp (Capture_assets Demo.env (Demo.crawl true true) 3
        (Demo.seed "http://b.test/")
        (http.mkResponse 200 {["Content-Type" := "text/html"]} ["sid=1"] ""
                         0%nat)
        [Demo.u_b; Demo.u_img; Demo.u_down])
     (fun _ w' log =>
        queue_incrs log = [3; -1; -1; -1] /\
        QueueCount w' = QueueCount (Demo.world1 "http://b.test/"))
     (Demo.world1 "http://b.test/").
Proof.
  apply (Capture_assets_queue_count Demo.env (Demo.crawl true true) 3
           (Demo.seed "http://b.test/") _
           [Demo.u_b; Demo.u_img; Demo.u_down]).
  - unfold in_int64. cbn. lia.
  - vm_compute. lia.
  - unfold in_int64. cbn. lia.
Defined.

(** ** Events of a page capture *)

Lemma respects_log_only_weaken {A} (P Q : Event -> Prop) (m : M A) :
  (forall e, P e -> Q e) ->
  respects (log_only P) m -> respects (log_only Q) m.
Proof.
  intros HPQ Hm w. specialize (Hm w). unfold log_only in *.
  destruct (m w); auto; eapply Forall_impl; eauto.
Qed.

Lemma AddCookies_silent P req cookies :
  respects (log_only P) (AddCookies req cookies).
Proof.
  induction cookies as [|cookie rest IH]; cbn [AddCookies].
  - apply respects_ret; apply _.
  - respects_struct_with ltac:(apply IH). respects_leaf. constructor.
Qed.

Section CaptureEvents.

Variable E : Env.
Variable c : Crawl.

Lemma captureAsset_events fuel item cookies :
  respects (log_only (fun e => is_asset_event e = true /\
                               match e with
                               | EvCaptureAsset a _ => a = item
                               | _ => True
                               end))
           (captureAsset E c fuel item cookies).
Proof.
  unfold captureAsset.
  respects_struct_with
    ltac:(first
      [ apply AddCookies_silent
      | eapply respects_log_only_weaken;
        [|first [apply executeGET_fetch_events
                |apply deleteTempFile_fetch_events]];
        intros ev Hev; split; [apply is_fetch_asset_event, Hev|];
        destruct ev; try exact I; discriminate Hev ]).
  all: respects_leaf; repeat constructor.
Qed.

Lemma Capture_assets_loop_events fuel item resp assets :
  respects (log_only (fun e => capture_event E c item e /\
                               is_outlink_event e = false))
           (Capture_assets_loop E c fuel item resp assets).
Proof.
  induction assets as [|asset rest IH]; cbn [Capture_assets_loop].
  - apply respects_ret; apply _.
  - respects_struct_with
      ltac:(first
        [ apply IH
        | eapply respects_log_only_weaken; [|apply captureAsset_events];
          intros ev [Ha Hev]; destruct ev; try (split; [exact I|reflexivity]);
          try discriminate Ha ]).
    all: try (respects_leaf; repeat constructor; fail).
    split; [|reflexivity]. cbn [capture_event]. subst item0.
    cbn [NewItem frontier.URL]. split; [reflexivity|].
    apply String.eqb_neq. rewrite String.eqb_sym. assumption.
Qed.

Lemma Capture_events fuel item :
  respects (log_only (capture_event E c item)) (Capture E c fuel item).
Proof.
  unfold Capture, Capture_request, Capture_scrape, Capture_document,
    Capture_links, Capture_assets.
  respects_struct_with
    ltac:(first
      [ eapply respects_log_only_weaken;
        [|apply Capture_assets_loop_events]; intros ev [Hev _]; exact Hev
      | eapply respects_log_only_weaken;
        [|first [apply executeGET_fetch_events
                |apply deleteTempFile_fetch_events]];
        intros ev Hev; destruct ev; try exact I; discriminate Hev ]).
  all: respects_leaf; repeat constructor; cbn [capture_event]; auto; lia.
Qed.

End CaptureEvents.

(** ** The link stage *)

Section Links.

Variable E : Env.
Variable c : Crawl.

Lemma prepend_log_app {A} l1 l2 (o : Outcome A) :
  prepend_log l1 (prepend_log l2 o) = prepend_log (l1 ++ l2) o.
Proof. destruct o; cbn [prepend_log]; rewrite ?app_assoc; reflexivity. Qed.

Lemma Capture_links_no_outlinks fuel item resp base doc w :
  MaxHops c <= frontier.Hop item ->
  Capture_links E c fuel item resp base doc w =
  Capture_asset_stage E c fuel item resp base doc w.
Proof.
  intros Hhop. unfold Capture_links, Capture_asset_stage, bind.
  assert ((frontier.Hop item <? MaxHops c) = false) as -> by lia.
  cbn [ret emit app].
  destruct (extractAssets E base doc);
    [destruct (Capture_assets _ _ _ _ _ _ _)|]; reflexivity.
Qed.

Lemma Capture_links_outlinks fuel item resp base doc w outlinks :
  frontier.Hop item < MaxHops c ->
  extractOutlinks E base doc = inl outlinks ->
  Capture_links E c fuel item resp base doc w =
  prepend_log [EvExtractOutlinks base doc (inl outlinks);
               EvGoQueueOutlinks outlinks item]
              (Capture_asset_stage E c fuel item resp base doc w).
Proof.
  intros Hhop Hout. unfold Capture_links, Capture_asset_stage, bind.
  assert ((frontier.Hop item <? MaxHops c) = true) as -> by lia.
  rewrite Hout. cbn [ret emit go_queueOutlinks app].
  destruct (extractAssets E base doc);
    [destruct (Capture_assets _ _ _ _ _ _ _)|]; reflexivity.
Qed.

Lemma Capture_links_outlinks_fail fuel item resp base doc w err :
  frontier.Hop item < MaxHops c ->
  extractOutlinks E base doc = inr err ->
  Capture_links E c fuel item resp base doc w =
  Returns tt w [EvExtractOutlinks base doc (inr err);
                EvWarning (url.String (frontier.URL item)) err].
Proof.
  intros Hhop Hout. unfold Capture_links.
  assert ((frontier.Hop item <? MaxHops c) = true) as -> by lia.
  rewrite Hout. reflexivity.
Qed.

End Links.

Section Gates.

Variable E : Env.
Variable c : Crawl.

Lemma Capture_log_events fuel item w e :
  In e (outcome_log (Capture E c fuel item w)) -> capture_event E c item e.
Proof.
  pose proof (Capture_events E c fuel item w) as H. unfold log_only in H.
  intros Hin.
  destruct (Capture E c fuel item w); cbn [outcome_log] in Hin;
    try (eapply List.Forall_forall in H; eauto; fail).
  destruct Hin.
Qed.

(** C7. Outlinks are extracted and queued only for an item whose hop
    count is strictly below [MaxHops]: in any run of [Capture] an
    extraction or a queueing of outlinks implies it. Conversely the link
    stage of an item below the limit begins with the extraction, and
    when it succeeds the goroutine that queues the outlinks is started
    and the stage goes on at once, in the same world, with the assets;
    at or above the limit the stage is the asset stage alone. *)
Theorem Capture_outlinks_gate :
  (forall fuel item w e,
     In e (outcome_log (Capture E c fuel item w)) ->
     match e with
     | EvExtractOutlinks _ _ _ => frontier.Hop item < MaxHops c
     | EvGoQueueOutlinks _ it => frontier.Hop item < MaxHops c /\ it = item
     | _ => True
     end) /\
  (forall fuel item resp base doc w,
     frontier.Hop item < MaxHops c ->
     Capture_links E c fuel item resp base doc w =
     prepend_log
       [EvExtractOutlinks base doc (extractOutlinks E base doc)]
       (match extractOutlinks E base doc with
        | inr err => logWarning err (url.String (frontier.URL item)) w
        | inl outlinks =>
            prepend_log [EvGoQueueOutlinks outlinks item]
                        (Capture_asset_stage E c fuel item resp base doc w)
        end)) /\
  (forall fuel item resp base doc w,
     MaxHops c <= frontier.Hop item ->
     Capture_links E c fuel item resp base doc w =
     Capture_asset_stage E c fuel item resp base doc w).
Proof.
  split; [|split].
  - intros fuel item w e Hin. apply Capture_log_events in Hin.
    destruct e; try exact I; exact Hin.
  - intros fuel item resp base doc w Hhop.
    destruct (extractOutlinks E base doc) as [outlinks|err] eqn:Hout.
    + rewrite prepend_log_app. apply Capture_links_outlinks; assumption.
    + erewrite Capture_links_outlinks_fail by eassumption. reflexivity.
  - intros. apply Capture_links_no_outlinks. assumption.
Qed.

(** C8. An asset whose URL reads the same as the URL of the page is
    skipped by the asset loop: the iteration lowers the queue counter
    and goes on with the remaining assets, and [captureAsset] is not
    called; in any run of [Capture], [captureAsset] is only ever called
    on an item whose URL differs from that of the page. *)
Theorem Capture_skips_own_url :
  (forall fuel item resp asset rest w,
     url.String (frontier.URL item) = url.String asset ->
     Capture_assets_loop E c fuel item resp (asset :: rest) w =
     prepend_log [EvQueueCountIncr (-1)]
       (Capture_assets_loop E c fuel item resp rest
          (set_QueueCount w (wrap_int64 (QueueCount w + -1))))) /\
  (forall fuel item w a cookies,
     In (EvCaptureAsset a cookies) (outcome_log (Capture E c fuel item w)) ->
     url.String (frontier.URL a) <> url.String (frontier.URL item)).
Proof.
  split.
  - intros fuel item resp asset rest w Heq.
    cbn [Capture_assets_loop]. unfold bind, QueueCount_Incr.
    rewrite Heq, String.eqb_refl. cbn [ret].
    destruct (Capture_assets_loop _ _ _ _ _ _ _); reflexivity.
  - intros fuel item w a cookies Hin. apply Capture_log_events in Hin.
    apply Hin.
Qed.

End Gates.

Ltac find_in_log := vm_compute; repeat first [left; reflexivity | right].

Lemma Capture_outlinks_gate_witness :
  (frontier.Hop (Demo.seed "http://b.test/") < MaxHops (Demo.crawl true true)
   /\ Demo.seed "http://b.test/" = Demo.seed "http://b.test/") /\
  Capture_links Demo.env (Demo.crawl true true) 3 (Demo.seed "http://b.test/")
    (http.mkResponse 200 ∅ [] "" 0%nat) Demo.u_b (mkDocument "page")
    Demo.world0
  = prepend_log
      [EvExtractOutlinks Demo.u_b (mkDocument "page")
                         (inl [Demo.u_o1; Demo.u_o2]);
       EvGoQueueOutlinks [Demo.u_o1; Demo.u_o2] (Demo.seed "http://b.test/")]
      (Capture_asset_stage Demo.env (Demo.crawl true true) 3
         (Demo.seed "http://b.test/") (http.mkResponse 200 ∅ [] "" 0%nat)
         Demo.u_b (mkDocument "page") Demo.world0) /\
  Capture_links Demo.env (Demo.crawl true true) 3
    (frontier.mkItem Demo.u_b None "page" 3 0 0)
    (http.mkResponse 200 ∅ [] "" 0%nat) Demo.u_b (mkDocument "page")
    Demo.world0
  = Capture_asset_stage Demo.env (Demo.crawl true true) 3
      (frontier.mkItem Demo.u_b None "page" 3 0 0)
      (http.mkResponse 200 ∅ [] "" 0%nat) Demo.u_b (mkDocument "page")
      Demo.world0.
Proof.
  destruct (Capture_outlinks_gate Demo.env (Demo.crawl true true))
    as (Honly & Hbelow & Hat).
  split; [|split].
  - apply (Honly 3%nat (Demo.seed "http://b.test/") Demo.world0
             (EvGoQueueOutlinks [Demo.u_o1; Demo.u_o2]
                                (Demo.seed "http://b.test/"))).
    find_in_log.
  - rewrite Hbelow by (cbn; lia). cbn [Demo.env extractOutlinks Demo.outlinks].
    rewrite prepend_log_app. reflexivity.
  - apply Hat. cbn. lia.
Defined.

Lemma Capture_skips_own_url_witness :
  Capture_assets_loop Demo.env (Demo.crawl true true) 3
    (Demo.seed "http://b.test/") (http.mkResponse 200 ∅ [] "" 0%nat)
    [Demo.u_b] Demo.world0
  = prepend_log [EvQueueCountIncr (-1)]
      (Capture_assets_loop Demo.env (Demo.crawl true true) 3
         (Demo.seed "http://b.test/") (http.mkResponse 200 ∅ [] "" 0%nat) []
         (set_QueueCount Demo.world0
            (wrap_int64 (QueueCount Demo.world0 + -1)))) /\
  url.String (frontier.URL Demo.asset_img)
    <> url.String (frontier.URL (Demo.seed "http://b.test/")).
Proof.
  destruct (Capture_skips_own_url Demo.env (Demo.crawl true true))
    as [Hskip Hnever].
  split.
  - apply Hskip. reflexivity.
  - apply (Hnever 3%nat (Demo.seed "http://b.test/") Demo.world0
             Demo.asset_img ["sid=1"]).
    find_in_log.
Defined.

(** ** The shape of a page capture *)

Section Shape.

Variable E : Env.
Variable c : Crawl.

Lemma Capture_request_silent item :
  respects (log_only (fun _ => False)) (Capture_request E item).
Proof.
  unfold Capture_request. respects_struct; respects_leaf; constructor.
Qed.

Lemma is_fetch_not_link e : is_fetch_event e = true -> is_link_event e = false.
Proof. destruct e; cbn; congruence. Qed.

Lemma deleteTempFile_log_not_link path w :
  Forall (fun e => is_link_event e = false) (deleteTempFile_log path w).
Proof.
  eapply Forall_impl; [apply deleteTempFile_log_fetch_events|].
  apply is_fetch_not_link.
Qed.

Lemma peel_app {A} (a L p l1 t : list A) :
  L = (p ++ l1) ++ t -> a ++ L = ((a ++ p) ++ l1) ++ t.
Proof. intros ->. rewrite !app_assoc. reflexivity. Qed.

Lemma peel_cons {A} (x : A) (L p l1 t : list A) :
  L = (p ++ l1) ++ t -> x :: L = ((x :: p) ++ l1) ++ t.
Proof. intros ->. reflexivity. Qed.

Lemma peel_stop {A} (l1 t : list A) : l1 ++ t = ([] ++ l1) ++ t.
Proof. reflexivity. Qed.

Ltac peel :=
  repeat first [ simple apply peel_stop
               | simple apply peel_cons
               | simple apply peel_app ].

Ltac not_link :=
  cbn [outcome_log app];
  repeat first [rewrite Forall_app | rewrite Forall_cons];
  repeat split;
  first [ assumption
        | apply deleteTempFile_log_not_link
        | solve [repeat constructor] ].

Lemma Capture_shape fuel item w :
  Forall (fun e => is_link_event e = false)
         (outcome_log (Capture E c fuel item w)) \/
  exists pre resp base doc w1,
    Forall (fun e => is_link_event e = false) pre /\
    Capture E c fuel item w =
    append_log (prepend_log pre (Capture_links E c fuel item resp base doc w1))
               [EvBodyClose resp].
Proof.
  assert (Forall (fun e => is_link_event e = false)
                 (outcome_log (Capture_request E item w))) as Hrq.
  { pose proof (Capture_request_silent item w) as H. unfold log_only in H.
    destruct (Capture_request E item w); cbn [outcome_log];
      try constructor; eapply Forall_impl; eauto; intros ? []. }
  assert (forall req w0,
            Forall (fun e => is_link_event e = false)
                   (outcome_log (executeGET E c fuel item req w0))) as Hget.
  { intros req w0. pose proof (executeGET_fetch_events E c fuel item req w0) as H.
    unfold log_only in H.
    destruct (executeGET E c fuel item req w0); cbn [outcome_log];
      try constructor; eapply Forall_impl; eauto using is_fetch_not_link. }
  unfold Capture, Capture_scrape, Capture_document, bind, defer, logWarning,
    logCrawlSuccess, Body_Close, emit, panic, ret, deref, get_world.
  rewrite ?deleteTempFile_run.
  repeat (inner_case; wsimpl; rewrite ?deleteTempFile_run).
  all: cbn [outcome_log] in Hrq;
    try match goal with
        | H : executeGET _ _ _ _ ?req ?w0 = _ |- _ =>
            specialize (Hget req w0); rewrite H in Hget;
            cbn [outcome_log] in Hget
        end.
  all: cbn [app]; rewrite ?app_nil_r, <- ?app_assoc; cbn [app].
  all: try first
    [ match goal with
      | H : Capture_links _ _ _ _ ?r ?b ?d ?w' = OutOfFuel |- _ =>
          right; exists [], r, b, d, w';
          split; [constructor|rewrite H; reflexivity]
      | H : Capture_links _ _ _ _ ?r ?b ?d ?w' = _ |- _ =>
          right; eexists _, r, b, d, w';
          split;
          [|rewrite H; cbn [prepend_log append_log]; f_equal; peel];
          not_link
      end
    | left; not_link ].
Qed.

Lemma outcome_log_wrap {A} pre (o : Outcome A) l :
  outcome_log (append_log (prepend_log pre o) l) =
  match o with
  | OutOfFuel => []
  | _ => (pre ++ outcome_log o) ++ l
  end.
Proof. destruct o; reflexivity. Qed.

Lemma Capture_asset_stage_no_outlinks fuel item resp base doc w :
  Forall (fun e => is_outlink_event e = false)
         (outcome_log (Capture_asset_stage E c fuel item resp base doc w)).
Proof.
  unfold Capture_asset_stage.
  destruct (extractAssets E base doc) as [assets|err].
  - assert (respects (log_only (fun e => is_outlink_event e = false))
                     (Capture_assets E c fuel item resp assets)) as H.
    { unfold Capture_assets.
      respects_struct_with
        ltac:(eapply respects_log_only_weaken;
              [|apply Capture_assets_loop_events]; intros ev [_ Hev];
              exact Hev).
      respects_leaf. repeat constructor. }
    specialize (H w). unfold log_only in H.
    destruct (Capture_assets E c fuel item resp assets w);
      cbn [prepend_log outcome_log app]; repeat constructor; exact H.
  - cbn. repeat constructor.
Qed.

Lemma is_link_not_asset_stage e :
  is_link_event e = false -> is_asset_stage_event e = false.
Proof. destruct e; cbn; congruence. Qed.

(** C9. When the extraction of outlinks fails for a page below the hop
    limit, the link stage logs the error and returns at once, with the
    world as it was; and in any run of [Capture] in which an extraction
    of outlinks failed, the log ends with that failure, its warning and
    the closing of the body, and holds no event of the asset stage: the
    assets are neither extracted nor captured. *)
Theorem Capture_outlink_failure :
  (forall fuel item resp base doc w err,
     frontier.Hop item < MaxHops c ->
     extractOutlinks E base doc = inr err ->
     Capture_links E c fuel item resp base doc w =
     Returns tt w [EvExtractOutlinks base doc (inr err);
                   EvWarning (url.String (frontier.URL item)) err]) /\
  (forall fuel item w base doc err,
     In (EvExtractOutlinks base doc (inr err))
        (outcome_log (Capture E c fuel item w)) ->
     Forall (fun e => is_asset_stage_event e = false)
            (outcome_log (Capture E c fuel item w)) /\
     exists pre resp,
       outcome_log (Capture E c fuel item w) =
       pre ++ [EvExtractOutlinks base doc (inr err);
               EvWarning (url.String (frontier.URL item)) err;
               EvBodyClose resp]).
Proof.
  split; [intros; apply Capture_links_outlinks_fail; assumption|].
  intros fuel item w base doc err Hin.
  pose proof (Capture_log_events E c fuel item w _ Hin) as Hhop.
  cbn [capture_event] in Hhop.
  destruct (Capture_shape fuel item w)
    as [Hno|(pre & resp & base' & doc' & w1 & Hpre & Hshape)].
  { eapply List.Forall_forall in Hno; [|exact Hin]. discriminate Hno. }
  rewrite Hshape in Hin |- *. rewrite outcome_log_wrap in Hin |- *.
  destruct (extractOutlinks E base' doc') as [outlinks|err'] eqn:Hout.
  - exfalso.
    rewrite (Capture_links_outlinks E c fuel item resp base' doc' w1 outlinks)
      in Hin by assumption.
    pose proof (Capture_asset_stage_no_outlinks fuel item resp base' doc' w1)
      as Hstage.
    destruct (Capture_asset_stage E c fuel item resp base' doc' w1)
      as [u w2 l2|msg w2 l2|]; cbn [prepend_log outcome_log] in Hin, Hstage;
      [| |destruct Hin].
    all: rewrite !in_app_iff in Hin; cbn [In] in Hin;
      destruct Hin as [[Hin|[[Hin|[Hin|[]]]|Hin]]|[Hin|[]]];
      try discriminate Hin.
    all: try (eapply List.Forall_forall in Hpre; [|exact Hin];
              discriminate Hpre).
    all: eapply List.Forall_forall in Hstage; [|exact Hin];
      discriminate Hstage.
  - rewrite (Capture_links_outlinks_fail E c fuel item resp base' doc' w1 err')
      in Hin |- * by assumption.
    cbn [outcome_log] in Hin |- *.
    rewrite !in_app_iff in Hin. cbn [In] in Hin.
    destruct Hin as [[Hin|[Hin|[Hin|[]]]]|[Hin|[]]]; try discriminate Hin.
    { eapply List.Forall_forall in Hpre; [|exact Hin]. discriminate Hpre. }
    injection Hin as -> -> ->. split.
    + rewrite !Forall_app. repeat split.
      * eapply Forall_impl; [exact Hpre|apply is_link_not_asset_stage].
      * repeat constructor.
      * repeat constructor.
    + exists pre, resp. rewrite <- app_assoc. reflexivity.
Qed.

End Shape.

Lemma Capture_outlink_failure_witness :
  Capture_links Demo.env (Demo.crawl true true) 3 (Demo.seed "http://b.test/")
    (http.mkResponse 200 ∅ [] "" 0%nat) Demo.u_b (mkDocument "broken")
    Demo.world0
  = Returns tt Demo.world0
      [EvExtractOutlinks Demo.u_b (mkDocument "broken")
                         (inr "cannot extract outlinks");
       EvWarning "http://b.test/" "cannot extract outlinks"] /\
  (Forall (fun e => is_asset_stage_event e = false)
          (outcome_log (Capture Demo.env (Demo.crawl false false) 3
                          (Demo.seed "http://broken.test/") Demo.world0)) /\
   exists pre resp,
     outcome_log (Capture Demo.env (Demo.crawl false false) 3
                    (Demo.seed "http://broken.test/") Demo.world0) =
     pre ++ [EvExtractOutlinks
               (url.mkURL "broken.test/" "http://broken.test/")
               (mkDocument "broken") (inr "cannot extract outlinks");
             EvWarning "http://broken.test/" "cannot extract outlinks";
             EvBodyClose resp]).
Proof.
  destruct (Capture_outlink_failure Demo.env (Demo.crawl true true))
    as [Hstage _].
  destruct (Capture_outlink_failure Demo.env (Demo.crawl false false))
    as [_ Hrun].
  split.
  - apply Hstage; [cbn; lia|reflexivity].
  - apply (Hrun 3%nat (Demo.seed "http://broken.test/") Demo.world0).
    find_in_log.
Defined.

(** ** The content-type gate *)

Section ContentType.

Variable E : Env.
Variable c : Crawl.

Lemma is_fetch_not_scrape e :
  is_fetch_event e = true -> is_scrape_event e = false.
Proof.
  destruct e; cbn; try congruence. intros ->. reflexivity.
Qed.

(** C4. When the response [Capture] obtained for a page has a
    [Content-Type] that does not contain "text/", [Capture] records the
    success, deletes the temp file, closes the body and returns: after
    the fetch its log holds nothing else, so no document is opened or
    parsed, no outlink or asset is extracted or captured, and no warning
    other than that of a failed removal is logged. *)
Theorem Capture_content_type_gate fuel item w req w0 l0 resp respPath w1 l1 :
  Capture_request E item w = Returns (inl req) w0 l0 ->
  executeGET E c fuel item req w0 = Returns (Some resp, respPath, None) w1 l1 ->
  strings_Contains (http.Header_Get (http.RespHeader resp) "Content-Type")
                   "text/" = false ->
  Capture E c fuel item w =
    Returns tt (deleteTempFile_world respPath w1)
            (l1 ++ EvCrawlSuccess (http.StatusCode resp) item
                :: deleteTempFile_log respPath w1 ++ [EvBodyClose resp]) /\
  (respPath <> "" -> respPath ∉ files (deleteTempFile_world respPath w1)) /\
  Forall (fun e => is_scrape_event e = false)
         (l1 ++ EvCrawlSuccess (http.StatusCode resp) item
             :: deleteTempFile_log respPath w1 ++ [EvBodyClose resp]).
Proof.
  intros Hreq Hget Htype.
  assert (l0 = []) as ->.
  { pose proof (Capture_request_silent E item w) as H.
    rewrite Hreq in H. unfold log_only in H.
    destruct l0 as [|e l0]; [reflexivity|]. inversion H as [|? ? []]. }
  split; [|split].
  - assert (wp (Capture E c fuel item)
              (fun _ w' l =>
                 w' = deleteTempFile_world respPath w1 /\
                 l = l1 ++ EvCrawlSuccess (http.StatusCode resp) item
                        :: deleteTempFile_log respPath w1 ++ [EvBodyClose resp])
              w) as ([] & w' & l & Hrun & -> & ->); [|exact Hrun].
    assert (negb (strings_Contains
                    (http.Header_Get (http.RespHeader resp) "Content-Type")
                    "text/") = true) as Hgate by (rewrite Htype; reflexivity).
    unfold Capture, Capture_scrape.
    repeat wp_step. split; [reflexivity|].
    cbn [app]. rewrite <- ?app_assoc. reflexivity.
  - apply deleteTempFile_world_files.
  - pose proof (executeGET_fetch_events E c fuel item req w0) as H.
    rewrite Hget in H. unfold log_only in H.
    rewrite Forall_app, Forall_cons, Forall_app. repeat split.
    + eapply Forall_impl; [exact H|apply is_fetch_not_scrape].
    + eapply Forall_impl;
        [apply deleteTempFile_log_fetch_events|apply is_fetch_not_scrape].
    + repeat constructor.
Qed.

End ContentType.

Lemma Capture_content_type_gate_witness :
  exists w' log,
    Capture Demo.env (Demo.crawl true false) 3
      (Demo.seed "http://img.test/x.png") Demo.world0
    = Returns tt w' log /\
    ("/tmp/1.temp" ∉ files w') /\
    Forall (fun e => is_scrape_event e = false) log.
Proof.
  edestruct (Capture_content_type_gate Demo.env (Demo.crawl true false) 3
               (Demo.seed "http://img.test/x.png") Demo.world0)
    as (Hrun & Hfile & Hev).
  - vm_compute. reflexivity.
  - vm_compute. reflexivity.
  - vm_compute. reflexivity.
  - eexists _, _. split; [exact Hrun|]. split; [|exact Hev].
    apply Hfile. discriminate.
Defined.


(** * Further properties *)

(** ** [deleteTempFile] *)

(** X1. [deleteTempFile] always returns. Afterwards a non-empty path is
    not on disk, every other file and the rest of the world are as they
    were, and nothing is logged for the empty path. A second call leaves
    the world as the first one left it; for a non-empty path it logs the
    failed removal and its warning. *)
Theorem deleteTempFile_idempotent path w :
  exists w1 l1 l2,
    deleteTempFile path w = Returns tt w1 l1 /\
    deleteTempFile path w1 = Returns tt w1 l2 /\
    (path <> "" -> path ∉ files w1) /\
    (forall q, q <> path -> q ∈ files w1 <-> q ∈ files w) /\
    (requests w1 = requests w /\ Crawled w1 = Crawled w /\
     QueueCount w1 = QueueCount w /\ SeencheckDB w1 = SeencheckDB w /\
     issued w1 = issued w) /\
    (path = "" -> files w1 = files w /\ l1 = [] /\ l2 = []) /\
    (path <> "" ->
     l2 = [EvRemove path (Some "no such file or directory");
           EvWarning "Error deleting temporary file"
                     "no such file or directory"]).
Proof.
  exists (deleteTempFile_world path w), (deleteTempFile_log path w),
         (deleteTempFile_log path (deleteTempFile_world path w)).
  split; [apply deleteTempFile_run|]. split.
  { rewrite deleteTempFile_run. f_equal.
    unfold deleteTempFile_world. cbn [files set_files].
    destruct (String.eqb path ""); [reflexivity|].
    unfold set_files. cbn [requests files Crawled QueueCount SeencheckDB issued].
    f_equal. set_solver. }
  split; [apply deleteTempFile_world_files|].
  unfold deleteTempFile_world, deleteTempFile_log. cbn [files set_files requests
    Crawled QueueCount SeencheckDB issued].
  destruct (String.eqb_spec path "") as [->|Hne].
  - repeat split; try done; set_solver.
  - repeat split; try done; try set_solver.
    intros _. rewrite bool_decide_eq_false_2 by set_solver. reflexivity.
Qed.

(** ** More on the fetch executor *)

#[local] Instance counts_requests_Invariant : Invariant counts_requests.
Proof.
  split; unfold counts_requests, issued_requests.
  - intros w. cbn. lia.
  - intros w w1 w2 l1 l2 H1 H2. rewrite omap_app, length_app. lia.
Qed.

Section FetchMore.

Variable E : Env.
Variable c : Crawl.

Lemma executeGET_hop_lineage item req r w :
  requests w !! req = Some r ->
  wp (executeGET_hop E c item req)
     (fun next w1 l1 =>
        calls_of l1 = [item] /\
        match next with
        | Done (None, path, _) => path = ""
        | Done _ => True
        | Recurse newItem _ =>
            newItem =
            frontier.set_Redirect
              (NewItem (item_hash E) (frontier.URL newItem) (Some item)
                       (frontier.Type_ item) (frontier.Hop item))
              (wrap_int64 (frontier.Redirect item + 1))
        end) w.
Proof.
  intros Hr.
  unfold executeGET_hop, executeGET_fetch, executeGET_redirect.
  repeat wp_step.
  all: unfold calls_of; rewrite ?omap_app.
  all: split; [unfold deleteTempFile_log; repeat case_match; reflexivity|].
  all: reflexivity.
Qed.

Lemma executeGET_hop_files item req r w :
  requests w !! req = Some r ->
  wp (executeGET_hop E c item req)
     (fun next w1 l1 =>
        forall q, q ∈ files w1 ->
          q ∈ files w \/
          (q <> "" /\ match next with
                      | Done (_, path, _) => q = path
                      | Recurse _ _ => False
                      end)) w.
Proof.
  intros Hr.
  unfold executeGET_hop, executeGET_fetch, executeGET_redirect.
  repeat wp_step.
  all: intros q Hq; auto.
  all: destruct (String.eqb_spec respPath ""); set_solver.
Qed.

Lemma executeGET_hop_plain item req r w :
  WARC c = false ->
  requests w !! req = Some r ->
  wp (executeGET_hop E c item req)
     (fun next w1 l1 =>
        files w1 = files w /\ Crawled w1 = Crawled w /\
        Forall (fun e => is_plain_fetch_event e = true) l1 /\
        match next with
        | Done (_, path, _) => path = ""
        | Recurse _ _ => True
        end) w.
Proof.
  intros HW Hr.
  unfold executeGET_hop, executeGET_fetch, executeGET_redirect.
  repeat wp_step.
  all: cbn [String.eqb]; repeat split; repeat constructor.
Qed.

Lemma executeGET_hop_counts_requests item req :
  respects counts_requests (executeGET_hop E c item req).
Proof.
  unfold executeGET_hop, executeGET_fetch, executeGET_redirect, deleteTempFile.
  respects_struct; respects_leaf; unfold counts_requests; cbn; lia.
Qed.

Lemma executeGET_counts_requests fuel : forall item req,
  respects counts_requests (executeGET E c fuel item req).
Proof.
  induction fuel as [|fuel IH]; intros item req; cbn [executeGET].
  - apply respects_out_of_fuel.
  - apply respects_bind; [apply _ | apply executeGET_hop_counts_requests |].
    intros [res|newItem newReq]; [apply respects_ret; apply _ | apply IH].
Qed.

Lemma executeGET_chain fuel : forall item req w,
  in_int64 (MaxRedirect c) ->
  in_int64 (frontier.Redirect item) ->
  is_Some (requests w !! req) ->
  (Z.to_nat (MaxRedirect c - frontier.Redirect item) < fuel)%nat ->
  wp (executeGET E c fuel item req)
     (fun res w' log =>
        (exists rest,
           calls_of log = item :: rest /\
           redirect_chain (item_hash E) item rest) /\
        List.length (issued_requests log) = List.length (redirects_of log) /\
        (forall q, q ∈ files w' ->
           q ∈ files w \/ (q <> "" /\ q = snd (fst res))) /\
        match res with
        | (Some resp, _, _) => is_Some (requests w' !! http.Request_of resp)
        | (None, path, err) => path = "" /\ err <> None
        end) w.
Proof.
  induction fuel as [|fuel IH]; intros item req w HM Hi [r Hreq] Hfuel; [lia|].
  cbn [executeGET]. apply wp_bind.
  eapply wp_mono.
  { apply wp_and; [apply wp_and; [apply wp_and|]|].
    - apply executeGET_hop_returns. eauto.
    - apply (executeGET_hop_lineage item req r w Hreq).
    - apply (executeGET_hop_files item req r w Hreq).
    - apply (executeGET_hop_issued E c item req r w Hreq). }
  intros [[[[resp|] respPath] err]|newItem newReq] w1 l1
         [[[[Hred Hnext] [Hcalls Hlin]] Hfiles] [Hsent _]]; cbn beta iota.
  - apply wp_ret. rewrite app_nil_r. destruct Hnext as [<- Hv].
    split; [exists []; split; [exact Hcalls|exact I]|].
    split; [rewrite Hsent, Hred; reflexivity|].
    split; [exact Hfiles|exact Hv].
  - apply wp_ret. rewrite app_nil_r.
    split; [exists []; split; [exact Hcalls|exact I]|].
    split; [rewrite Hsent, Hred; reflexivity|].
    split; [exact Hfiles|]. split; [exact Hlin|exact Hnext].
  - destruct Hnext as (Hv & Hlt & Hnew).
    assert (frontier.Redirect newItem = frontier.Redirect item + 1) as Hnew'.
    { rewrite Hnew. apply wrap_int64_id. unfold in_int64 in *. lia. }
    eapply wp_mono.
    { apply IH; auto.
      - rewrite Hnew'. unfold in_int64 in *. lia.
      - rewrite Hnew'. lia. }
    cbn beta. intros res w2 l2 ((rest & Hc2 & Hchain) & Hlen & Hf2 & Hres).
    split; [|split; [|split]].
    + exists (newItem :: rest). unfold calls_of in *.
      rewrite omap_app, Hcalls, Hc2. split; [reflexivity|].
      cbn [redirect_chain]. split; [|exact Hchain].
      rewrite Hlin at 1. f_equal.
      apply wrap_int64_id. unfold in_int64 in *. lia.
    + unfold issued_requests, redirects_of in *.
      rewrite !omap_app, !length_app, Hsent, Hred, Hlen. reflexivity.
    + intros q Hq. destruct (Hf2 q Hq) as [Hin|Hin]; [|auto].
      destruct (Hfiles q Hin) as [?|[_ []]]. auto.
    + exact Hres.
Qed.

Lemma redirect_chain_same_hop hash rest : forall first,
  redirect_chain hash first rest ->
  Forall (fun item => frontier.Hop item = frontier.Hop first /\
                      frontier.Type_ item = frontier.Type_ first) rest.
Proof.
  induction rest as [|item rest IH]; intros first Hchain; [constructor|].
  destruct Hchain as [Hitem Hrest]. apply IH in Hrest.
  assert (frontier.Hop item = frontier.Hop first /\
          frontier.Type_ item = frontier.Type_ first) as [Hh Ht].
  { rewrite Hitem. split; reflexivity. }
  constructor; [auto|].
  eapply Forall_impl; [exact Hrest|]. cbn beta. intros it [? ?].
  split; congruence.
Qed.

(** X2. Every call of [executeGET] sends exactly one request, and a run
    that starts at redirect count [r] sends at least one and at most
    [1 + max 0 (MaxRedirect - r)] requests in all. *)
Theorem executeGET_request_bound fuel item req w :
  in_int64 (MaxRedirect c) ->
  in_int64 (frontier.Redirect item) ->
  is_Some (requests w !! req) ->
  (Z.to_nat (MaxRedirect c - frontier.Redirect item) < fuel)%nat ->
  wp (executeGET E c fuel item req)
     (fun _ w' log =>
        List.length (issued_requests log) = List.length (calls_of log) /\
        1 <= Z.of_nat (List.length (issued_requests log))
          <= 1 + Z.max 0 (MaxRedirect c - frontier.Redirect item) /\
        issued w' = (issued w + List.length (issued_requests log))%nat) w.
Proof.
  intros HM Hi Hreq Hfuel.
  eapply wp_mono.
  { apply (wp_respects counts_requests); [apply executeGET_counts_requests|].
    apply wp_and; [apply executeGET_returns|apply executeGET_chain]; eauto. }
  cbn beta.
  intros res w' log [[[(n & Hred & Hn) _] [(rest & Hcalls & _) [Hlen _]]] Hcount].
  assert (List.length (redirects_of log) = List.length (calls_of log)) as Hrc.
  { unfold redirects_of, calls_of. clear.
    induction log as [|e log IH]; [reflexivity|].
    destruct e; cbn [omap list_omap]; fold (@omap list _); cbn [List.length];
      auto. }
  split; [congruence|]. split; [|exact Hcount].
  rewrite Hlen, Hred, length_seqZ. lia.
Qed.

(** X3. With archival off [executeGET] writes nothing: the path it
    returns is empty, the files on disk and the crawled counter are as
    they were, and its log holds nothing but its own calls and the
    requests sent. *)
Theorem executeGET_without_archival fuel : forall item req w,
  WARC c = false ->
  in_int64 (MaxRedirect c) ->
  in_int64 (frontier.Redirect item) ->
  is_Some (requests w !! req) ->
  (Z.to_nat (MaxRedirect c - frontier.Redirect item) < fuel)%nat ->
  wp (executeGET E c fuel item req)
     (fun res w' log =>
        snd (fst res) = "" /\ files w' = files w /\ Crawled w' = Crawled w /\
        Forall (fun e => is_plain_fetch_event e = true) log) w.
Proof.
  induction fuel as [|fuel IH]; intros item req w HW HM Hi [r Hreq] Hfuel; [lia|].
  cbn [executeGET]. apply wp_bind.
  eapply wp_mono.
  { apply wp_and.
    - apply executeGET_hop_returns. eauto.
    - apply (executeGET_hop_plain item req r w HW Hreq). }
  intros [[[resp respPath] err]|newItem newReq] w1 l1
         [[_ Hnext] (Hf & Hc & Hev & Hpath)]; cbn beta iota.
  - apply wp_ret. rewrite app_nil_r. auto.
  - destruct Hnext as (Hv & Hlt & Hnew).
    rewrite wrap_int64_id in Hnew by (unfold in_int64 in *; lia).
    eapply wp_mono.
    { apply IH; auto.
      - rewrite Hnew. unfold in_int64 in *. lia.
      - rewrite Hnew. lia. }
    cbn beta. intros res w2 l2 (Hp2 & Hf2 & Hc2 & Hev2).
    repeat split; try congruence. apply Forall_app. auto.
Qed.

(** X4. The result of [executeGET] is one a caller can use after the
    usual check of the error: a nil response comes only with a non-nil
    error and an empty path, and the request of a response that is
    returned is a live request object. *)
Theorem executeGET_result_shape fuel item req w :
  in_int64 (MaxRedirect c) ->
  in_int64 (frontier.Redirect item) ->
  is_Some (requests w !! req) ->
  (Z.to_nat (MaxRedirect c - frontier.Redirect item) < fuel)%nat ->
  wp (executeGET E c fuel item req)
     (fun res w' _ =>
        match res with
        | (Some resp, _, _) => is_Some (requests w' !! http.Request_of resp)
        | (None, path, err) => path = "" /\ err <> None
        end) w.
Proof.
  intros HM Hi Hreq Hfuel.
  eapply wp_mono; [apply executeGET_chain; eauto|].
  cbn beta. intros res w' log (_ & _ & _ & H). exact H.
Qed.

(** X5. Along a redirect chain each item is made from the one before:
    its parent is the item of the call before, its redirect count is
    one more, its hash is that of its URL, and its type and hop count
    are those of the item [executeGET] was first called with. *)
Theorem executeGET_redirect_lineage fuel item req w :
  in_int64 (MaxRedirect c) ->
  in_int64 (frontier.Redirect item) ->
  is_Some (requests w !! req) ->
  (Z.to_nat (MaxRedirect c - frontier.Redirect item) < fuel)%nat ->
  wp (executeGET E c fuel item req)
     (fun _ _ log =>
        exists rest,
          calls_of log = item :: rest /\
          redirect_chain (item_hash E) item rest /\
          Forall (fun it => frontier.Hop it = frontier.Hop item /\
                            frontier.Type_ it = frontier.Type_ item) rest) w.
Proof.
  intros HM Hi Hreq Hfuel.
  eapply wp_mono; [apply executeGET_chain; eauto|].
  cbn beta. intros res w' log ((rest & Hcalls & Hchain) & _).
  exists rest. split; [exact Hcalls|]. split; [exact Hchain|].
  eapply redirect_chain_same_hop, Hchain.
Qed.

End FetchMore.

Lemma executeGET_request_bound_witness :
  wp (executeGET Demo.env (Demo.crawl true false) 3
        (Demo.seed "http://r.test/") 0%nat)
     (fun _ w' log =>
        List.length (issued_requests log) = List.length (calls_of log) /\
        1 <= Z.of_nat (List.length (issued_requests log)) <= 1 + Z.max 0 (2 - 0)
        /\ issued w' = (0 + List.length (issued_requests log))%nat)
     (Demo.world1 "http://r.test/").
Proof.
  apply (executeGET_request_bound Demo.env (Demo.crawl true false) 3
           (Demo.seed "http://r.test/") 0%nat (Demo.world1 "http://r.test/")).
  - unfold in_int64. cbn. lia.
  - unfold in_int64. cbn. lia.
  - eexists. reflexivity.
  - vm_compute. lia.
Defined.

Lemma executeGET_without_archival_witness :
  wp (executeGET Demo.env (Demo.crawl false false) 3
        (Demo.seed "http://a.test/") 0%nat)
     (fun res w' log =>
        snd (fst res) = "" /\
        files w' = files (Demo.world1 "http://a.test/") /\
        Crawled w' = Crawled (Demo.world1 "http://a.test/") /\
        Forall (fun e => is_plain_fetch_event e = true) log)
     (Demo.world1 "http://a.test/").
Proof.
  apply (executeGET_without_archival Demo.env (Demo.crawl false false) 3).
  - reflexivity.
  - unfold in_int64. cbn. lia.
  - unfold in_int64. cbn. lia.
  - eexists. reflexivity.
  - vm_compute. lia.
Defined.

Lemma executeGET_result_shape_witness :
  wp (executeGET Demo.env (Demo.crawl true false) 3
        (Demo.seed "http://down.test/") 0%nat)
     (fun res w' _ =>
        match res with
        | (Some resp, _, _) => is_Some (requests w' !! http.Request_of resp)
        | (None, path, err) => path = "" /\ err <> None
        end)
     (Demo.world1 "http://down.test/").
Proof.
  apply (executeGET_result_shape Demo.env (Demo.crawl true false) 3
           (Demo.seed "http://down.test/") 0%nat
           (Demo.world1 "http://down.test/")).
  - unfold in_int64. cbn. lia.
  - unfold in_int64. cbn. lia.
  - eexists. reflexivity.
  - vm_compute. lia.
Defined.

Lemma executeGET_redirect_lineage_witness :
  wp (executeGET Demo.env (Demo.crawl true false) 3
        (Demo.seed "http://a.test/") 0%nat)
     (fun _ _ log =>
        exists rest,
          calls_of log = Demo.seed "http://a.test/" :: rest /\
          redirect_chain (item_hash Demo.env) (Demo.seed "http://a.test/") rest
          /\ Forall (fun it => frontier.Hop it = 0 /\
                               frontier.Type_ it = "seed") rest)
     (Demo.world1 "http://a.test/").
Proof.
  apply (executeGET_redirect_lineage Demo.env (Demo.crawl true false) 3
           (Demo.seed "http://a.test/") 0%nat (Demo.world1 "http://a.test/")).
  - unfold in_int64. cbn. lia.
  - unfold in_int64. cbn. lia.
  - eexists. reflexivity.
  - vm_compute. lia.
Defined.

(** ** The client a request goes through *)

Section Clients.

Variable E : Env.
Variable c : Crawl.

Lemma executeGET_fetch_sent_through req :
  respects (log_only (sent_through E c)) (executeGET_fetch E c req).
Proof.
  intros w.
  unfold executeGET_fetch, Do, writeWARC, Crawled_Incr, Body_Close, emit,
    bind, deref, ret.
  repeat (inner_case; wsimpl).
  all: unfold log_only; cbn [app]; repeat constructor.
  all: simplify_eq; unfold sent_through, client_for;
    repeat case_match; reflexivity.
Qed.

Lemma executeGET_sent_through fuel : forall item req,
  respects (log_only (sent_through E c)) (executeGET E c fuel item req).
Proof.
  induction fuel as [|fuel IH]; intros item req; cbn [executeGET].
  - apply respects_out_of_fuel.
  - unfold executeGET_hop, executeGET_redirect, deleteTempFile.
    respects_struct_with
      ltac:(first [apply IH | apply executeGET_fetch_sent_through]).
    all: respects_leaf; repeat constructor.
Qed.

Lemma captureAsset_sent_through fuel item cookies :
  respects (log_only (sent_through E c)) (captureAsset E c fuel item cookies).
Proof.
  unfold captureAsset, deleteTempFile.
  respects_struct_with
    ltac:(first [apply AddCookies_silent | apply executeGET_sent_through]).
  all: respects_leaf; repeat constructor.
Qed.

Lemma Capture_assets_loop_sent_through fuel item resp assets :
  respects (log_only (sent_through E c))
           (Capture_assets_loop E c fuel item resp assets).
Proof.
  induction assets as [|asset rest IH]; cbn [Capture_assets_loop].
  - apply respects_ret; apply _.
  - respects_struct_with
      ltac:(first [apply IH | apply captureAsset_sent_through]).
    all: respects_leaf; repeat constructor.
Qed.

(** X6. In any run of [Capture] every request, of the page, of its
    redirect hops and of its assets, goes through the direct client when
    no proxied client is configured or when the host of the request is in
    the bypass list, and through the proxied client otherwise. *)
Theorem Capture_sent_through fuel item w client ref r :
  In (EvDo client ref r) (outcome_log (Capture E c fuel item w)) ->
  match ClientProxied c with
  | None => client = Client c
  | Some proxied =>
      if StringContainsSliceElements E (url.Host (http.URL r)) (BypassProxy c)
      then client = Client c else client = proxied
  end.
Proof.
  assert (respects (log_only (sent_through E c)) (Capture E c fuel item)) as H.
  { unfold Capture, Capture_request, Capture_scrape, Capture_document,
      Capture_links, Capture_assets, deleteTempFile.
    respects_struct_with
      ltac:(first [apply Capture_assets_loop_sent_through
                  |apply executeGET_sent_through]).
    all: respects_leaf; repeat constructor. }
  specialize (H w). unfold log_only in H. intros Hin.
  destruct (Capture E c fuel item w); cbn [outcome_log] in Hin;
    [| |destruct Hin].
  all: rewrite List.Forall_forall in H; apply (H _ Hin).
Qed.

End Clients.

Lemma Capture_sent_through_witness :
  http.mkClient "direct" = Client (Demo.crawl true true).
Proof.
  apply (Capture_sent_through Demo.env (Demo.crawl true true) 3
           (Demo.seed "http://b.test/") Demo.world0 (http.mkClient "direct")
           0%nat {| http.Method := "GET"; http.URL := Demo.u_b;
                    http.Header := ∅ |}).
  find_in_log.
Defined.

(** ** Temp files and the order of the asset captures *)

Lemma captured_assets_fetch_events l :
  Forall (fun e => is_fetch_event e = true) l -> captured_assets l = [].
Proof.
  induction 1 as [|e l He _ IH]; [reflexivity|].
  unfold captured_assets in *. cbn [omap list_omap]. fold (@omap list _).
  destruct e; cbn in He; try discriminate; exact IH.
Qed.

Lemma captured_assets_deleteTempFile_log path w :
  captured_assets (deleteTempFile_log path w) = [].
Proof.
  apply captured_assets_fetch_events, deleteTempFile_log_fetch_events.
Qed.

Lemma captured_assets_app l1 l2 :
  captured_assets (l1 ++ l2) = captured_assets l1 ++ captured_assets l2.
Proof. apply omap_app. Qed.

Lemma files_after_delete (path : string) (fs fs0 : gset string) :
  (forall q, q ∈ fs -> q ∈ fs0 \/ (q <> "" /\ q = path)) ->
  (if String.eqb path "" then fs else fs ∖ {[path]}) ⊆ fs0.
Proof.
  intros H q Hq. destruct (String.eqb_spec path "") as [->|Hne].
  - destruct (H q Hq) as [?|[? ?]]; [assumption|congruence].
  - apply elem_of_difference in Hq as [Hq Hnot].
    destruct (H q Hq) as [?|[_ ->]]; [assumption|]. set_solver.
Qed.

Section NoLeak.

Variable E : Env.
Variable c : Crawl.

Lemma captureAsset_files fuel item cookies p w :
  in_int64 (MaxRedirect c) ->
  in_int64 (frontier.Redirect item) ->
  (Z.to_nat (MaxRedirect c - frontier.Redirect item) < fuel)%nat ->
  frontier.ParentItem item = Some p ->
  wp (captureAsset E c fuel item cookies)
     (fun _ w' log =>
        files w' ⊆ files w /\ captured_assets log = [item]) w.
Proof.
  intros HM Hi Hfuel Hp.
  unfold captureAsset.
  repeat wp_step.
  all: try (eapply wp_mono;
            [apply wp_AddCookies; wsimpl; eexists;
             eapply lookup_insert_same, lookup_alloc|];
            cbn beta; wsimpl;
            intros _ w1 l1 (-> & Hf1 & Hc1 & Hq1 & Hs1 & Hv1);
            apply wp_bind;
            eapply wp_mono;
            [apply wp_and; [apply executeGET_spec|apply executeGET_chain];
             auto|];
            cbn beta;
            intros [[[resp|] respPath] [err|]] w2 l2
                   [(Hres & _ & Hev) (_ & _ & Hf2 & Hshape)];
            try (destruct Hshape; congruence); repeat wp_step).
  all: split; [first [reflexivity
                     |apply files_after_delete; cbn [fst snd] in Hf2;
                      rewrite <- Hf1; exact Hf2]|].
  all: rewrite ?captured_assets_app, ?captured_assets_deleteTempFile_log;
    try rewrite (captured_assets_fetch_events l2 Hev); reflexivity.
Qed.

Lemma Capture_assets_loop_order fuel item resp assets : forall w,
  in_int64 (MaxRedirect c) ->
  (Z.to_nat (MaxRedirect c) < fuel)%nat ->
  wp (Capture_assets_loop E c fuel item resp assets)
     (fun _ w' log =>
        files w' ⊆ files w /\
        captured_assets log = assets_to_capture E item assets) w.
Proof.
  induction assets as [|asset rest IH]; intros w HM Hfuel;
    cbn [Capture_assets_loop].
  - apply wp_ret. split; [reflexivity|reflexivity].
  - unfold assets_to_capture in *. cbn [List.filter].
    repeat wp_step.
    + eapply wp_mono; [apply IH; auto|]. cbn beta. wsimpl.
      intros _ w' l [Hf Hl]. split; [exact Hf|].
      rewrite !captured_assets_app, Hl. reflexivity.
    + eapply wp_mono.
      { eapply captureAsset_files with (p := item); auto.
        - unfold in_int64. cbn. lia.
        - cbn [NewItem frontier.Redirect]. rewrite Z.sub_0_r. exact Hfuel. }
      cbn beta. wsimpl. intros err w1 l1 [Hf1 Hl1].
      destruct err; repeat wp_step.
      all: eapply wp_mono; [apply IH; auto|]; cbn beta;
        intros _ w' l [Hf Hl]; (split; [set_solver|]);
        rewrite !captured_assets_app, Hl1, Hl; reflexivity.
Qed.

(** X7. The asset block of [Capture] hands to [captureAsset] one item
    for each asset URL that is not the URL of the page, each exactly
    once and in the order of extraction, whether the captures before it
    failed or not; and it leaves no temp file behind. *)
Theorem Capture_assets_order fuel item resp assets w :
  in_int64 (MaxRedirect c) ->
  (Z.to_nat (MaxRedirect c) < fuel)%nat ->
  wp (Capture_assets E c fuel item resp assets)
     (fun _ w' log =>
        captured_assets log = assets_to_capture E item assets /\
        files w' ⊆ files w) w.
Proof.
  intros HM Hfuel. unfold Capture_assets. repeat wp_step.
  eapply wp_mono; [apply Capture_assets_loop_order; auto|].
  cbn beta. wsimpl. intros _ w' l [Hf Hl]. split; [|exact Hf].
  rewrite captured_assets_app, Hl. reflexivity.
Qed.

End NoLeak.

Lemma Capture_assets_order_witness :
  wp (Capture_assets Demo.env (Demo.crawl true true) 3
        (Demo.seed "http://b.test/")
        (http.mkResponse 200 {["Content-Type" := "text/html"]} ["sid=1"] ""
                         0%nat)
        [Demo.u_b; Demo.u_down; Demo.u_img])
     (fun _ w' log =>
        captured_assets log =
          assets_to_capture Demo.env (Demo.seed "http://b.test/")
                            [Demo.u_b; Demo.u_down; Demo.u_img] /\
        files w' ⊆ files Demo.world0)
     Demo.world0.
Proof.
  apply (Capture_assets_order Demo.env (Demo.crawl true true) 3).
  - unfold in_int64. cbn. lia.
  - vm_compute. lia.
Defined.

(** ** [Capture] as a whole: it returns and leaves no temp file *)

Section CaptureFiles.

Variable E : Env.
Variable c : Crawl.

Lemma Capture_request_returns item w :
  (0 < frontier.Hop item -> is_Some (frontier.ParentItem item)) ->
  wp (Capture_request E item)
     (fun rq w' log =>
        files w' = files w /\
        match rq with
        | inl req => is_Some (requests w' !! req)
        | inr _ => True
        end) w.
Proof.
  intros Hp. unfold Capture_request. repeat wp_step.
  3: { apply Z.ltb_lt in Heqb. destruct (Hp Heqb) as [? ?]. congruence. }
  all: split; [reflexivity|]; try exact I; eexists; heap_lookup.
Qed.

Lemma Capture_links_files fuel item resp base doc w :
  in_int64 (MaxRedirect c) ->
  (Z.to_nat (MaxRedirect c) < fuel)%nat ->
  wp (Capture_links E c fuel item resp base doc)
     (fun _ w' _ => files w' ⊆ files w) w.
Proof.
  intros HM Hfuel. unfold Capture_links, Capture_assets. repeat wp_step.
  all: try reflexivity.
  all: eapply wp_mono; [apply Capture_assets_loop_order; auto|];
    cbn beta; intros _ w9 l9 [Hf9 _]; cbn [files set_QueueCount] in Hf9;
    exact Hf9.
Qed.

Lemma Capture_document_files item resp respPath (fs0 : gset string) w :
  (forall q, q ∈ files w -> q ∈ fs0 \/ (q <> "" /\ q = respPath)) ->
  wp (Capture_document E item resp respPath)
     (fun _ w' _ => files w' ⊆ fs0) w.
Proof.
  intros Hf. unfold Capture_document. repeat wp_step.
  all: try (apply files_after_delete; exact Hf).
  all: apply negb_false_iff, String.eqb_eq in Heqb; subst respPath;
    intros q Hq; destruct (Hf q Hq) as [?|[? ?]]; [assumption|congruence].
Qed.

Lemma Capture_scrape_files fuel item resp respPath (fs0 : gset string) w :
  in_int64 (MaxRedirect c) ->
  (Z.to_nat (MaxRedirect c) < fuel)%nat ->
  is_Some (requests w !! http.Request_of resp) ->
  (forall q, q ∈ files w -> q ∈ fs0 \/ (q <> "" /\ q = respPath)) ->
  wp (Capture_scrape E c fuel item resp respPath)
     (fun _ w' _ => files w' ⊆ fs0) w.
Proof.
  intros HM Hfuel [rq Hrq] Hf. unfold Capture_scrape. repeat wp_step.
  all: try (apply files_after_delete; exact Hf).
  eapply wp_mono; [apply Capture_document_files; exact Hf|].
  cbn beta. intros [doc|] w1 _ Hf1; repeat wp_step; [|exact Hf1].
  eapply wp_mono; [apply Capture_links_files; auto|].
  cbn beta. intros _ w2 _ Hf2. set_solver.
Qed.

Lemma Capture_returns_files fuel item w :
  in_int64 (MaxRedirect c) ->
  in_int64 (frontier.Redirect item) ->
  (Z.to_nat (MaxRedirect c - frontier.Redirect item) < fuel)%nat ->
  (Z.to_nat (MaxRedirect c) < fuel)%nat ->
  (0 < frontier.Hop item -> is_Some (frontier.ParentItem item)) ->
  wp (Capture E c fuel item) (fun _ w' _ => files w' ⊆ files w) w.
Proof.
  intros HM Hi Hfuel Hfuel' Hp. unfold Capture. apply wp_bind.
  eapply wp_mono; [apply Capture_request_returns; exact Hp|].
  cbn beta. intros [req|err] w1 l1 [Hf1 Hreq]; repeat wp_step.
  2: { rewrite Hf1. reflexivity. }
  eapply wp_mono;
    [apply wp_and; [apply executeGET_spec|apply executeGET_chain]; auto|].
  cbn beta.
  intros [[[resp|] respPath] [err|]] w2 l2
         [(Hres & _ & _) (_ & _ & Hf2 & Hshape)];
    cbn [fst snd] in Hf2; rewrite Hf1 in Hf2;
    try (destruct Hshape; congruence); repeat wp_step.
  1, 3: apply files_after_delete; exact Hf2.
  eapply wp_mono; [apply Capture_scrape_files; eauto|].
  cbn beta. intros _ w3 _ Hf3. repeat wp_step. exact Hf3.
Qed.

(** X8. [Capture] returns (the nil dereferences of line 137 and after
    [executeGET] are not reached by an item that has a parent whenever
    its hop count is positive), and whichever of its branches it takes,
    every temp file made during the run, for the page or for an asset,
    has been removed when it returns. *)
Theorem Capture_no_temp_file_left fuel item w :
  in_int64 (MaxRedirect c) ->
  in_int64 (frontier.Redirect item) ->
  (Z.to_nat (MaxRedirect c - frontier.Redirect item) < fuel)%nat ->
  (Z.to_nat (MaxRedirect c) < fuel)%nat ->
  (0 < frontier.Hop item -> is_Some (frontier.ParentItem item)) ->
  wp (Capture E c fuel item) (fun _ w' _ => files w' ⊆ files w) w.
Proof. apply Capture_returns_files. Qed.

End CaptureFiles.

Lemma Capture_no_temp_file_left_witness :
  wp (Capture Demo.env (Demo.crawl true true) 4 (Demo.seed "http://a.test/"))
     (fun _ w' _ => files w' ⊆ files Demo.world0) Demo.world0.
Proof.
  apply (Capture_no_temp_file_left Demo.env (Demo.crawl true true) 4).
  - unfold in_int64. cbn. lia.
  - unfold in_int64. cbn. lia.
  - vm_compute. lia.
  - vm_compute. lia.
  - cbn. lia.
Defined.

(** ** The headers of the requests as they are sent *)

Lemma string_app_assoc (a b d : string) :
  ((a ++ b) ++ d = a ++ (b ++ d))%string.
Proof.
  induction a as [|x a IH]; [reflexivity|].
  change (String x ((a ++ b) ++ d) = String x (a ++ b ++ d))%string.
  f_equal. exact IH.
Qed.

Lemma Header_Get_Set h key value :
  http.Header_Get (http.Header_Set h key value) key = value.
Proof. unfold http.Header_Get, http.Header_Set. rewrite lookup_insert_eq. reflexivity. Qed.

Lemma Header_Set_Set h key v1 v2 :
  http.Header_Set (http.Header_Set h key v1) key v2 = http.Header_Set h key v2.
Proof. unfold http.Header_Set. apply insert_insert_eq. Qed.

Lemma AddCookie_more cookies : forall r old,
  http.Header_Get (http.Header r) "Cookie" = old -> old <> "" ->
  Forall (fun cookie => cookie <> "") cookies ->
  fold_left http.Request_AddCookie cookies r =
  match cookies with
  | [] => r
  | _ => http.Request_Header_Set r "Cookie"
           (old ++ "; " ++ String.concat "; " cookies)%string
  end.
Proof.
  induction cookies as [|cookie rest IH]; intros r old Hold Hne Hall;
    [reflexivity|].
  inversion Hall as [|? ? Hc Hrest]; subst.
  cbn [fold_left]. unfold http.Request_AddCookie at 2.
  destruct (String.eqb_spec (http.Header_Get (http.Header r) "Cookie") "")
    as [He|_]; [congruence|].
  rewrite (IH _ (http.Header_Get (http.Header r) "Cookie" ++ "; " ++ cookie)%string).
  - destruct rest as [|cookie' rest']; [reflexivity|].
    unfold http.Request_Header_Set. cbn [http.Method http.URL http.Header].
    rewrite Header_Set_Set. f_equal. f_equal.
    cbn [String.concat]. rewrite !string_app_assoc. reflexivity.
  - unfold http.Request_Header_Set. cbn [http.Header].
    apply Header_Get_Set.
  - destruct (http.Header_Get (http.Header r) "Cookie"); discriminate.
  - exact Hrest.
Qed.

Lemma AddCookie_all cookies r :
  http.Header_Get (http.Header r) "Cookie" = "" ->
  Forall (fun cookie => cookie <> "") cookies ->
  fold_left http.Request_AddCookie cookies r =
  match cookies with
  | [] => r
  | _ => http.Request_Header_Set r "Cookie" (String.concat "; " cookies)
  end.
Proof.
  intros Hold Hall. destruct cookies as [|cookie rest]; [reflexivity|].
  inversion Hall as [|? ? Hc Hrest]; subst.
  cbn [fold_left]. unfold http.Request_AddCookie at 2.
  rewrite Hold. cbn [String.eqb].
  rewrite (AddCookie_more rest _ cookie); auto.
  - destruct rest as [|cookie' rest']; [reflexivity|].
    unfold http.Request_Header_Set. cbn [http.Method http.URL http.Header].
    rewrite Header_Set_Set. reflexivity.
  - unfold http.Request_Header_Set. cbn [http.Header]. apply Header_Get_Set.
Qed.

Lemma wp_AddCookies_request req cookies : forall r w,
  requests w !! req = Some r ->
  wp (AddCookies req cookies)
     (fun _ w' l =>
        l = [] /\
        requests w' !! req = Some (fold_left http.Request_AddCookie cookies r)) w.
Proof.
  induction cookies as [|cookie rest IH]; intros r w Hr; cbn [AddCookies].
  - apply wp_ret. auto.
  - repeat wp_step. eapply wp_mono.
    { apply IH. wsimpl. eapply lookup_insert_same, Hr. }
    cbn beta. intros _ w' l [-> Hw']. auto.
Qed.

Section SentHeaders.

Variable E : Env.
Variable c : Crawl.

(** X9. When [captureAsset] goes on to fetch (the URL of the asset
    parses, and the seencheck is off or has not seen the hash), the
    first request it sends is a GET of that URL whose header holds the
    [Referer] of the parent page and one [Cookie] header joining the
    cookies with a semicolon and a space, and nothing else: no
    [User-Agent]. Every request that follows in the same call, for a
    redirection, has an empty header. *)
Theorem captureAsset_request_headers fuel item cookies p u w :
  in_int64 (MaxRedirect c) ->
  in_int64 (frontier.Redirect item) ->
  (Z.to_nat (MaxRedirect c - frontier.Redirect item) < fuel)%nat ->
  frontier.ParentItem item = Some p ->
  url_Parse E (url.String (frontier.URL item)) = inl u ->
  (Seencheck c = true ->
   SeencheckDB w !! FormatUint (frontier.Hash item) = None) ->
  Forall (fun cookie => cookie <> "") cookies ->
  wp (captureAsset E c fuel item cookies)
     (fun _ _ log =>
        exists rest,
          issued_requests log =
            asset_request u (url.String (frontier.URL p)) cookies :: rest /\
          Forall (fun r => http.Header r = ∅) rest) w.
Proof.
  intros HM Hi Hfuel Hp Hu Hseen Hcookies.
  unfold captureAsset.
  repeat wp_step.
  1: { rewrite (Hseen eq_refl) in Heqb0.
       apply bool_decide_eq_true_1 in Heqb0. destruct Heqb0; discriminate. }
  all: eapply wp_mono;
    [eapply wp_AddCookies_request; wsimpl;
     eapply lookup_insert_same, lookup_alloc|];
    cbn beta; intros _ w1 l1 [-> Hr1];
    apply wp_bind;
    (eapply wp_mono;
     [apply wp_and;
      [apply executeGET_spec; eauto
      |eapply executeGET_followed_requests_bare; eauto]|]);
    cbn beta;
    intros [[[resp|] respPath] [err|]] w2 l2
           [(Hres & _ & _) (rest & Hl2 & Hrest)];
    try congruence; repeat wp_step.
  all: exists rest; split; [|exact Hrest].
  all: unfold issued_requests in *; rewrite ?omap_app, Hl2.
  all: unfold deleteTempFile_log; repeat case_match; cbn [omap list_omap app].
  all: rewrite ?app_nil_r; f_equal.
  all: rewrite AddCookie_all; [|reflexivity|exact Hcookies].
  all: unfold asset_request; destruct cookies; reflexivity.
Qed.

Lemma issued_requests_app l1 l2 :
  issued_requests (l1 ++ l2) = issued_requests l1 ++ issued_requests l2.
Proof. apply omap_app. Qed.

Lemma issued_requests_deleteTempFile_log path w0 :
  issued_requests (deleteTempFile_log path w0) = [].
Proof. unfold deleteTempFile_log. repeat case_match; reflexivity. Qed.

Lemma AddCookie_no_user_agent cookies : forall r,
  no_user_agent r ->
  no_user_agent (fold_left http.Request_AddCookie cookies r).
Proof.
  induction cookies as [|cookie rest IH]; intros r Hr; [exact Hr|].
  cbn [fold_left]. apply IH.
  unfold http.Request_AddCookie, no_user_agent in *.
  destruct (String.eqb _ _); cbn [http.Request_Header_Set http.Header];
    unfold http.Header_Set; rewrite lookup_insert_ne; auto;
    vm_compute; discriminate.
Qed.

Lemma bare_no_user_agent rest :
  Forall (fun r => http.Header r = ∅) rest -> Forall no_user_agent rest.
Proof.
  intros H. eapply Forall_impl; [exact H|].
  intros r Hr. unfold no_user_agent. rewrite Hr. apply lookup_empty.
Qed.

Lemma captureAsset_no_user_agent fuel item cookies p w :
  in_int64 (MaxRedirect c) ->
  in_int64 (frontier.Redirect item) ->
  (Z.to_nat (MaxRedirect c - frontier.Redirect item) < fuel)%nat ->
  frontier.ParentItem item = Some p ->
  wp (captureAsset E c fuel item cookies)
     (fun _ _ log => Forall no_user_agent (issued_requests log)) w.
Proof.
  intros HM Hi Hfuel Hp.
  unfold captureAsset.
  repeat wp_step.
  all: try (eapply wp_mono;
    [eapply wp_AddCookies_request; wsimpl;
     eapply lookup_insert_same, lookup_alloc|];
    cbn beta; intros _ w1 l1 [-> Hr1];
    apply wp_bind;
    (eapply wp_mono;
     [apply wp_and;
      [apply executeGET_spec; eauto
      |eapply executeGET_followed_requests_bare; eauto]|]);
    cbn beta;
    intros [[[resp|] respPath] [err|]] w2 l2
           [(Hres & _ & _) (rest & Hl2 & Hrest)];
    try congruence; repeat wp_step).
  all: rewrite ?issued_requests_app, ?issued_requests_deleteTempFile_log,
         ?Hl2; cbn [issued_requests omap list_omap app]; rewrite ?app_nil_r.
  all: try (constructor; fail).
  all: constructor; [|apply bare_no_user_agent, Hrest].
  all: apply AddCookie_no_user_agent; unfold no_user_agent;
    cbn [http.Request_Header_Set http.Header]; unfold http.Header_Set;
    rewrite lookup_insert_ne by (vm_compute; discriminate);
    apply lookup_empty.
Qed.

Lemma Capture_assets_loop_no_user_agent fuel item resp assets : forall w,
  in_int64 (MaxRedirect c) ->
  (Z.to_nat (MaxRedirect c) < fuel)%nat ->
  wp (Capture_assets_loop E c fuel item resp assets)
     (fun _ _ log => Forall no_user_agent (issued_requests log)) w.
Proof.
  induction assets as [|asset rest IH]; intros w HM Hfuel;
    cbn [Capture_assets_loop].
  - apply wp_ret. constructor.
  - repeat wp_step.
    + eapply wp_mono; [apply IH; auto|]. cbn beta. intros _ _ l Hl. exact Hl.
    + eapply wp_mono.
      { eapply captureAsset_no_user_agent with (p := item); auto.
        - unfold in_int64. cbn. lia.
        - cbn [NewItem frontier.Redirect]. rewrite Z.sub_0_r. exact Hfuel. }
      cbn beta. intros err w1 l1 Hl1.
      destruct err; repeat wp_step.
      all: eapply wp_mono; [apply IH; auto|]; cbn beta;
        intros _ _ l2 Hl2;
        rewrite !issued_requests_app; cbn [issued_requests omap list_omap app];
        rewrite ?app_nil_r; apply Forall_app; auto.
Qed.

Lemma Capture_links_no_user_agent fuel item resp base doc w :
  in_int64 (MaxRedirect c) ->
  (Z.to_nat (MaxRedirect c) < fuel)%nat ->
  wp (Capture_links E c fuel item resp base doc)
     (fun _ _ log => Forall no_user_agent (issued_requests log)) w.
Proof.
  intros HM Hfuel. unfold Capture_links, Capture_assets. repeat wp_step.
  all: try (repeat constructor; fail).
  all: eapply wp_mono; [apply Capture_assets_loop_no_user_agent; auto|];
    cbn beta; intros _ w9 l9 Hl9; exact Hl9.
Qed.

Lemma Capture_document_no_request item resp respPath w :
  wp (Capture_document E item resp respPath)
     (fun _ _ log => issued_requests log = []) w.
Proof.
  unfold Capture_document. repeat wp_step.
  all: rewrite ?issued_requests_app, ?issued_requests_deleteTempFile_log;
    reflexivity.
Qed.

Lemma Capture_scrape_no_user_agent fuel item resp respPath w :
  in_int64 (MaxRedirect c) ->
  (Z.to_nat (MaxRedirect c) < fuel)%nat ->
  is_Some (requests w !! http.Request_of resp) ->
  wp (Capture_scrape E c fuel item resp respPath)
     (fun _ _ log => Forall no_user_agent (issued_requests log)) w.
Proof.
  intros HM Hfuel [rq Hrq]. unfold Capture_scrape. repeat wp_step.
  all: rewrite ?issued_requests_app, ?issued_requests_deleteTempFile_log;
    try (constructor; fail).
  eapply wp_mono; [apply Capture_document_no_request|].
  cbn beta. intros [doc|] w1 l1 Hl1; repeat wp_step.
  2: { rewrite !issued_requests_app, Hl1. constructor. }
  eapply wp_mono; [apply Capture_links_no_user_agent; auto|].
  cbn beta. intros _ _ l2 Hl2. rewrite !issued_requests_app, Hl1. exact Hl2.
Qed.

Lemma Capture_request_built item u w :
  (0 < frontier.Hop item -> is_Some (frontier.ParentItem item)) ->
  url_Parse E (url.String (frontier.URL item)) = inl u ->
  wp (Capture_request E item)
     (fun rq w' log =>
        log = [] /\
        exists req,
          rq = inl req /\ requests w' !! req = Some (page_request u item)) w.
Proof.
  intros Hp Hu. unfold Capture_request. repeat wp_step.
  3: { apply Z.ltb_lt in Heqb. destruct (Hp Heqb) as [? ?]. congruence. }
  all: split; [reflexivity|]; eexists; split; [reflexivity|].
  all: unfold page_request; rewrite ?Heqo, ?Heqb, ?Heqb0; cbn [andb].
  all: try (eapply lookup_insert_same, lookup_alloc).
  all: try apply lookup_alloc.
  destruct (frontier.ParentItem item); apply lookup_alloc.
Qed.

(** X10. The first request of a run of [Capture] is a GET of the URL of
    the item whose header holds a [Referer], that of the parent, exactly
    when the item is not a seed and the URL of its parent is not empty,
    and nothing else. No request sent after it in the run, for a
    redirection or for an asset, carries a [User-Agent] header: the
    configured user agent reaches no request that [Capture] sends. *)
Theorem Capture_request_headers fuel item u w :
  in_int64 (MaxRedirect c) ->
  in_int64 (frontier.Redirect item) ->
  (Z.to_nat (MaxRedirect c - frontier.Redirect item) < fuel)%nat ->
  (Z.to_nat (MaxRedirect c) < fuel)%nat ->
  (0 < frontier.Hop item -> is_Some (frontier.ParentItem item)) ->
  url_Parse E (url.String (frontier.URL item)) = inl u ->
  wp (Capture E c fuel item)
     (fun _ _ log =>
        exists rest,
          issued_requests log = page_request u item :: rest /\
          Forall no_user_agent rest) w.
Proof.
  intros HM Hi Hfuel Hfuel' Hp Hu. unfold Capture. apply wp_bind.
  eapply wp_mono; [apply Capture_request_built; eauto|].
  cbn beta. intros rq w1 l1 (-> & req & -> & Hreq).
  apply wp_bind.
  eapply wp_mono;
    [apply wp_and;
     [apply executeGET_spec; eauto
     |eapply executeGET_followed_requests_bare; eauto]|].
  cbn beta.
  intros [[[resp|] respPath] [err|]] w2 l2
         [(Hres & _ & _) (rest & Hl2 & Hrest)];
    try congruence; repeat wp_step.
  1, 3: exists rest;
    rewrite ?issued_requests_app, ?issued_requests_deleteTempFile_log, Hl2;
    cbn [issued_requests omap list_omap app]; rewrite ?app_nil_r;
    split; [reflexivity|apply bare_no_user_agent, Hrest].
  eapply wp_mono; [apply Capture_scrape_no_user_agent; auto|].
  cbn beta. intros _ w3 l3 Hl3. repeat wp_step.
  exists (rest ++ issued_requests l3).
  rewrite !issued_requests_app, Hl2.
  cbn [issued_requests omap list_omap app]. rewrite ?app_nil_r.
  split; [reflexivity|].
  apply Forall_app. split; [apply bare_no_user_agent, Hrest|exact Hl3].
Qed.

End SentHeaders.

Lemma captureAsset_request_headers_witness :
  wp (captureAsset Demo.env (Demo.crawl true true) 3 Demo.asset_img
                   ["sid=1"; "lang=en"])
     (fun _ _ log =>
        exists rest,
          issued_requests log =
            asset_request Demo.u_img "http://b.test/" ["sid=1"; "lang=en"]
            :: rest /\
          Forall (fun r => http.Header r = ∅) rest)
     Demo.world0.
Proof.
  apply (captureAsset_request_headers Demo.env (Demo.crawl true true) 3
           Demo.asset_img ["sid=1"; "lang=en"] (Demo.seed "http://b.test/")).
  - unfold in_int64. cbn. lia.
  - unfold in_int64. cbn. lia.
  - vm_compute. lia.
  - reflexivity.
  - reflexivity.
  - intros _. reflexivity.
  - repeat constructor; discriminate.
Defined.

Lemma Capture_request_headers_witness :
  wp (Capture Demo.env (Demo.crawl true true) 4 (Demo.seed "http://a.test/"))
     (fun _ _ log =>
        exists rest,
          issued_requests log =
            page_request (url.mkURL "a.test/" "http://a.test/")
                         (Demo.seed "http://a.test/") :: rest /\
          Forall no_user_agent rest)
     Demo.world0.
Proof.
  apply (Capture_request_headers Demo.env (Demo.crawl true true) 4).
  - unfold in_int64. cbn. lia.
  - unfold in_int64. cbn. lia.
  - vm_compute. lia.
  - vm_compute. lia.
  - cbn. lia.
  - reflexivity.
Defined.


(** ** The seencheck across the assets of a page *)

Lemma calls_of_app l1 l2 : calls_of (l1 ++ l2) = calls_of l1 ++ calls_of l2.
Proof. apply omap_app. Qed.

Lemma first_calls_app l1 l2 :
  first_calls (l1 ++ l2) = first_calls l1 ++ first_calls l2.
Proof. unfold first_calls. rewrite calls_of_app. apply List.filter_app. Qed.

Lemma first_calls_deleteTempFile_log path w :
  first_calls (deleteTempFile_log path w) = [].
Proof. unfold deleteTempFile_log. repeat case_match; reflexivity. Qed.

Lemma redirect_chain_positive hash rest : forall first,
  0 <= frontier.Redirect first ->
  redirect_chain hash first rest ->
  List.filter (fun item => frontier.Redirect item =? 0) rest = [].
Proof.
  induction rest as [|item rest IH]; intros first H0 Hchain; [reflexivity|].
  destruct Hchain as [Hitem Hrest].
  assert (frontier.Redirect item = frontier.Redirect first + 1) as HR
    by (rewrite Hitem; reflexivity).
  cbn [List.filter].
  assert ((frontier.Redirect item =? 0) = false) as -> by lia.
  apply (IH item); [lia|exact Hrest].
Qed.

Section SeenOnce.

Variable E : Env.
Variable c : Crawl.

Lemma captureAsset_first_calls fuel item cookies p w :
  Seencheck c = true ->
  in_int64 (MaxRedirect c) ->
  frontier.Redirect item = 0 ->
  (Z.to_nat (MaxRedirect c) < fuel)%nat ->
  frontier.ParentItem item = Some p ->
  wp (captureAsset E c fuel item cookies)
     (fun _ w' log =>
        if bool_decide (is_Some (SeencheckDB w !! seen_key item)) then
          first_calls log = [] /\ SeencheckDB w' = SeencheckDB w
        else
          (first_calls log = [] \/ first_calls log = [item]) /\
          SeencheckDB w' =
            <[seen_key item := frontier.Type_ item]> (SeencheckDB w)) w.
Proof.
  intros HS HM Hi Hfuel Hp.
  unfold captureAsset, seen_key. rewrite HS.
  repeat wp_step.
  all: try (eapply wp_mono;
            [apply wp_AddCookies; wsimpl; eexists;
             eapply lookup_insert_same, lookup_alloc|];
            cbn beta; wsimpl;
            intros _ w1 l1 (-> & Hf1 & Hc1 & Hq1 & Hs1 & Hv1);
            apply wp_bind;
            eapply wp_mono;
            [apply wp_and; [apply executeGET_spec|apply executeGET_chain];
             auto; try (rewrite Hi; unfold in_int64; lia);
             try (rewrite Hi, Z.sub_0_r; exact Hfuel)|];
            cbn beta;
            intros [[[resp|] respPath] [err|]] w2 l2
                   [(Hres & (_ & Hs2 & _) & _)
                    ((rest & Hcalls & Hchain) & _ & _ & Hshape)];
            try (destruct Hshape; congruence); repeat wp_step).
  all: split; [|first [reflexivity|congruence]].
  all: try reflexivity.
  all: try (left; reflexivity).
  all: right; rewrite ?first_calls_app, ?first_calls_deleteTempFile_log.
  all: unfold first_calls at 1 2 3; cbn [calls_of omap list_omap List.filter app].
  all: unfold first_calls; rewrite Hcalls; cbn [List.filter]; rewrite Hi;
    cbn [Z.eqb].
  all: rewrite (redirect_chain_positive _ _ _ ltac:(rewrite Hi; lia) Hchain).
  all: rewrite ?app_nil_r; reflexivity.
Qed.

Lemma Capture_assets_loop_fetch_once fuel item resp assets : forall w,
  Seencheck c = true ->
  in_int64 (MaxRedirect c) ->
  (Z.to_nat (MaxRedirect c) < fuel)%nat ->
  wp (Capture_assets_loop E c fuel item resp assets)
     (fun _ w' log =>
        NoDup (map seen_key (first_calls log)) /\
        Forall (fun a => SeencheckDB w !! seen_key a = None)
               (first_calls log) /\
        Forall (fun a => is_Some (SeencheckDB w' !! seen_key a))
               (first_calls log) /\
        (forall key, is_Some (SeencheckDB w !! key) ->
                     is_Some (SeencheckDB w' !! key))) w.
Proof.
  induction assets as [|asset rest IH]; intros w HS HM Hfuel;
    cbn [Capture_assets_loop].
  - apply wp_ret. repeat split; auto; constructor.
  - repeat wp_step.
    + eapply wp_mono; [apply IH; auto|]. cbn beta. wsimpl.
      intros _ w' l H. exact H.
    + eapply wp_mono.
      { eapply captureAsset_first_calls with (p := item); auto. }
      cbn beta. wsimpl. intros err w1 l1 H1.
      assert (wp (Capture_assets_loop E c fuel item resp rest)
                (fun _ w2 l2 =>
                   NoDup (map seen_key (first_calls (l1 ++ l2))) /\
                   Forall (fun a => SeencheckDB w !! seen_key a = None)
                          (first_calls (l1 ++ l2)) /\
                   Forall (fun a => is_Some (SeencheckDB w2 !! seen_key a))
                          (first_calls (l1 ++ l2)) /\
                   (forall key, is_Some (SeencheckDB w !! key) ->
                                is_Some (SeencheckDB w2 !! key))) w1) as Hrest.
      { eapply wp_mono; [apply IH; auto|]. cbn beta.
        intros _ w2 l2 (Hnd & Hnone & Hsome & Hgrow).
        rewrite first_calls_app.
        destruct (bool_decide _) eqn:Hseen.
        - destruct H1 as [-> Hdb]. cbn [app]. rewrite Hdb in *. auto.
        - destruct H1 as [Hl1 Hdb].
          apply bool_decide_eq_false_1 in Hseen.
          assert (SeencheckDB w !! seen_key
                    (NewItem (item_hash E) asset (Some item) "asset"
                             (frontier.Hop item)) = None) as Hnew.
          { destruct (SeencheckDB w !! _) eqn:Hk; [|reflexivity].
            exfalso. apply Hseen. eauto. }
          assert (forall key, SeencheckDB w1 !! key = None ->
                              SeencheckDB w !! key = None) as Hback.
          { intros key. rewrite Hdb. intros Hk.
            apply lookup_insert_None in Hk. tauto. }
          assert (forall key, is_Some (SeencheckDB w !! key) ->
                              is_Some (SeencheckDB w2 !! key)) as Hgrow'.
          { intros key Hk. apply Hgrow. rewrite Hdb.
            rewrite lookup_insert_is_Some. destruct Hk as [v Hk].
            destruct (decide (seen_key
                    (NewItem (item_hash E) asset (Some item) "asset"
                             (frontier.Hop item)) = key)); [left|right]; eauto. }
          assert (Forall (fun a => SeencheckDB w !! seen_key a = None)
                         (first_calls l2)) as Hnone'.
          { eapply Forall_impl; [exact Hnone|]. cbn beta. auto. }
          destruct Hl1 as [-> | ->]; cbn [app map]; [auto|].
          repeat split; auto.
          + constructor; [|exact Hnd].
            intros Hin. apply list_elem_of_fmap in Hin as (a & Ha & Hin).
            rewrite Forall_forall in Hnone. specialize (Hnone a Hin).
            rewrite Hdb, <- Ha, lookup_insert_eq in Hnone. discriminate.
          + constructor; [|exact Hsome].
            apply Hgrow. rewrite Hdb, lookup_insert_eq. eauto. }
      destruct err; repeat wp_step.
      all: eapply wp_mono; [exact Hrest|]; cbn beta;
        intros _ w2 l2 H2; rewrite !first_calls_app in *;
        cbn [first_calls calls_of omap list_omap List.filter app] in *;
        rewrite ?app_nil_r; exact H2.
Qed.

(** X11. With the seencheck on, the asset block of [Capture] fetches no
    hash twice: the assets it goes on to fetch have pairwise different
    seencheck keys, none of them was in the seen set when the block
    began, all of them are in it when the block ends, and no key leaves
    the seen set. *)
Theorem Capture_assets_fetch_once fuel item resp assets w :
  Seencheck c = true ->
  in_int64 (MaxRedirect c) ->
  (Z.to_nat (MaxRedirect c) < fuel)%nat ->
  wp (Capture_assets E c fuel item resp assets)
     (fun _ w' log =>
        NoDup (map seen_key (first_calls log)) /\
        Forall (fun a => SeencheckDB w !! seen_key a = None)
               (first_calls log) /\
        Forall (fun a => is_Some (SeencheckDB w' !! seen_key a))
               (first_calls log) /\
        (forall key, is_Some (SeencheckDB w !! key) ->
                     is_Some (SeencheckDB w' !! key))) w.
Proof.
  intros HS HM Hfuel. unfold Capture_assets. repeat wp_step.
  eapply wp_mono; [apply Capture_assets_loop_fetch_once; auto|].
  cbn beta. wsimpl. intros _ w' l H. exact H.
Qed.

End SeenOnce.

Lemma Capture_assets_fetch_once_witness :
  wp (Capture_assets Demo.env (Demo.crawl true true) 3
        (Demo.seed "http://b.test/")
        (http.mkResponse 200 {["Content-Type" := "text/html"]} ["sid=1"] ""
                         0%nat)
        [Demo.u_img; Demo.u_down; Demo.u_img])
     (fun _ w' log =>
        NoDup (map seen_key (first_calls log)) /\
        Forall (fun a => SeencheckDB Demo.world0 !! seen_key a = None)
               (first_calls log) /\
        Forall (fun a => is_Some (SeencheckDB w' !! seen_key a))
               (first_calls log) /\
        (forall key, is_Some (SeencheckDB Demo.world0 !! key) ->
                     is_Some (SeencheckDB w' !! key)))
     Demo.world0.
Proof.
  apply (Capture_assets_fetch_once Demo.env (Demo.crawl true true) 3).
  - reflexivity.
  - unfold in_int64. cbn. lia.
  - vm_compute. lia.
Defined.


(** ** The crawled counter over a whole capture *)

Ltac crawled_leaf :=
  respects_leaf; unfold crawled_counts; cbn; rewrite ?Z.add_0_r; auto.

Lemma AddCookies_crawled_counts req cookies :
  respects crawled_counts (AddCookies req cookies).
Proof.
  induction cookies as [|cookie rest IH]; cbn [AddCookies].
  - apply respects_ret; apply _.
  - respects_struct_with ltac:(apply IH). crawled_leaf.
Qed.

Lemma deleteTempFile_crawled_counts path :
  respects crawled_counts (deleteTempFile path).
Proof. unfold deleteTempFile. respects_struct; crawled_leaf. Qed.

Section CrawledTotal.

Variable E : Env.
Variable c : Crawl.

Lemma captureAsset_crawled_counts fuel item cookies :
  respects crawled_counts (captureAsset E c fuel item cookies).
Proof.
  unfold captureAsset.
  respects_struct_with
    ltac:(first [ apply AddCookies_crawled_counts
                | apply executeGET_crawled_counts
                | apply deleteTempFile_crawled_counts ]).
  all: crawled_leaf.
Qed.

Lemma Capture_assets_loop_crawled_counts fuel item resp assets :
  respects crawled_counts (Capture_assets_loop E c fuel item resp assets).
Proof.
  induction assets as [|asset rest IH]; cbn [Capture_assets_loop].
  - apply respects_ret; apply _.
  - respects_struct_with
      ltac:(first [apply IH | apply captureAsset_crawled_counts]).
    all: crawled_leaf.
Qed.

Lemma Capture_crawled_counts fuel item :
  respects crawled_counts (Capture E c fuel item).
Proof.
  unfold Capture, Capture_request, Capture_scrape, Capture_document,
    Capture_links, Capture_assets.
  respects_struct_with
    ltac:(first [ apply Capture_assets_loop_crawled_counts
                | apply executeGET_crawled_counts
                | apply deleteTempFile_crawled_counts ]).
  all: crawled_leaf.
Qed.

(** X12. Over a whole run of [Capture], the page, the redirections it
    follows and all its assets together, the crawled counter is
    incremented by one exactly once per successful WARC write and by
    nothing else, so it ends higher by the number of records written. *)
Theorem Capture_crawled_total fuel item w :
  in_int64 (MaxRedirect c) ->
  in_int64 (frontier.Redirect item) ->
  (Z.to_nat (MaxRedirect c - frontier.Redirect item) < fuel)%nat ->
  (Z.to_nat (MaxRedirect c) < fuel)%nat ->
  (0 < frontier.Hop item -> is_Some (frontier.ParentItem item)) ->
  in_int64 (Crawled w) ->
  wp (Capture E c fuel item)
     (fun _ w' log =>
        crawled_incrs log = replicate (warc_writes log) 1 /\
        Crawled w' = wrap_int64 (Crawled w + Z.of_nat (warc_writes log))) w.
Proof.
  intros HM Hi Hfuel Hfuel' Hp HC.
  eapply wp_mono.
  { apply (wp_respects crawled_counts); [apply Capture_crawled_counts|].
    apply Capture_returns_files; auto. }
  cbn beta. intros _ w' log [_ (Hin & Hc & Hincrs)].
  split; [exact Hincrs|].
  rewrite <- Hc. symmetry. apply wrap_int64_id. auto.
Qed.

End CrawledTotal.

Lemma Capture_crawled_total_witness :
  wp (Capture Demo.env (Demo.crawl true true) 4 (Demo.seed "http://a.test/"))
     (fun _ w' log =>
        crawled_incrs log = replicate (warc_writes log) 1 /\
        Crawled w' =
          wrap_int64 (Crawled Demo.world0 + Z.of_nat (warc_writes log)))
     Demo.world0.
Proof.
  apply (Capture_crawled_total Demo.env (Demo.crawl true true) 4).
  - unfold in_int64. cbn. lia.
  - unfold in_int64. cbn. lia.
  - vm_compute. lia.
  - vm_compute. lia.
  - cbn. lia.
  - unfold in_int64. cbn. lia.
Defined.


(** ** The base of the extractions *)

Lemma last_sent_cons_Do sent client ref r l :
  last_sent sent (EvDo client ref r :: l) = last_sent (Some r) l.
Proof.
  unfold last_sent. cbn [issued_requests omap list_omap].
  fold (issued_requests l).
  destruct (issued_requests l) as [|r' rs] eqn:Hl; [reflexivity|].
  rewrite last_cons. destruct (last (r' :: rs)) eqn:Hlast; [reflexivity|].
  apply last_None in Hlast. discriminate.
Qed.

Lemma bases_follow_app E l1 : forall sent l2,
  bases_follow E sent l1 ->
  bases_follow E (last_sent sent l1) l2 ->
  bases_follow E sent (l1 ++ l2).
Proof.
  induction l1 as [|e l1 IH]; intros sent l2 H1 H2; [exact H2|].
  destruct e; cbn [app bases_follow] in *;
    try (apply IH; [exact H1|exact H2]).
  - rewrite last_sent_cons_Do in H2. apply IH; [exact H1|exact H2].
  - destruct H1 as [Hb H1]. split; [exact Hb|]. apply IH; auto.
  - destruct H1 as [Hb H1]. split; [exact Hb|]. apply IH; auto.
Qed.

Lemma bases_follow_no_extract E l : forall sent,
  Forall (fun e => is_extract_event e = false) l -> bases_follow E sent l.
Proof.
  induction l as [|e l IH]; intros sent Hl; [exact I|].
  inversion Hl as [|? ? He Hl']; subst.
  destruct e; cbn [bases_follow]; try discriminate He; auto.
Qed.

Lemma is_asset_not_extract e :
  is_asset_event e = true -> is_extract_event e = false.
Proof. destruct e; cbn; congruence. Qed.

Lemma is_fetch_not_extract e :
  is_fetch_event e = true -> is_extract_event e = false.
Proof. destruct e; cbn; congruence. Qed.

Section ExtractionBase.

Variable E : Env.
Variable c : Crawl.

Lemma executeGET_hop_last_request item req r w :
  requests w !! req = Some r ->
  wp (executeGET_hop E c item req)
     (fun next w1 l1 =>
        issued_requests l1 = [r] /\
        match next with
        | Done (Some resp, _, _) =>
            exists r',
              requests w1 !! http.Request_of resp = Some r' /\
              http.URL r' = http.URL r
        | Done _ => True
        | Recurse _ newReq => is_Some (requests w1 !! newReq)
        end) w.
Proof.
  intros Hr.
  unfold executeGET_hop, executeGET_fetch, executeGET_redirect.
  repeat wp_step.
  all: unfold issued_requests; rewrite ?omap_app.
  all: split; [unfold deleteTempFile_log; repeat case_match; reflexivity|].
  all: auto.
  all: try (eexists; split; [cbn [http.Response_of_Reply http.Request_of];
                             heap_lookup|reflexivity]).
  all: eexists; rewrite !list_lookup_insert_ne
         by (apply lookup_lt_Some in Hr; lia); apply lookup_alloc.
Qed.

Lemma executeGET_last_request fuel : forall item req r w,
  in_int64 (MaxRedirect c) ->
  in_int64 (frontier.Redirect item) ->
  requests w !! req = Some r ->
  (Z.to_nat (MaxRedirect c - frontier.Redirect item) < fuel)%nat ->
  wp (executeGET E c fuel item req)
     (fun res w' log =>
        exists sent,
          last (issued_requests log) = Some sent /\
          match res with
          | (Some resp, _, _) =>
              exists r',
                requests w' !! http.Request_of resp = Some r' /\
                http.URL r' = http.URL sent
          | _ => True
          end) w.
Proof.
  induction fuel as [|fuel IH]; intros item req r w HM Hi Hreq Hfuel; [lia|].
  cbn [executeGET]. apply wp_bind.
  eapply wp_mono.
  { apply wp_and; [apply executeGET_hop_returns; eauto
                  |apply executeGET_hop_last_request, Hreq]. }
  intros [res|newItem newReq] w1 l1 [[_ Hnext] [Hl1 Hnew]]; cbn beta iota.
  - apply wp_ret. rewrite app_nil_r, Hl1. exists r. split; [reflexivity|].
    destruct res as [[[resp|] respPath] err]; auto.
  - destruct Hnext as (_ & Hlt & HR). destruct Hnew as [r1 Hr1].
    rewrite wrap_int64_id in HR by (unfold in_int64 in *; lia).
    eapply wp_mono.
    { eapply IH; eauto.
      - rewrite HR. unfold in_int64 in *. lia.
      - rewrite HR. lia. }
    cbn beta. intros res w2 l2 (sent & Hl2 & Hres).
    exists sent. split; [|exact Hres].
    unfold issued_requests in *. rewrite omap_app, Hl1. cbn [app].
    destruct (omap _ l2) as [|x xs]; [discriminate|].
    rewrite last_cons, Hl2. reflexivity.
Qed.

Lemma Capture_assets_loop_no_extract fuel item resp assets :
  respects (log_only (fun e => is_extract_event e = false))
           (Capture_assets_loop E c fuel item resp assets).
Proof.
  induction assets as [|asset rest IH]; cbn [Capture_assets_loop].
  - apply respects_ret; apply _.
  - respects_struct_with
      ltac:(first
        [ apply IH
        | eapply respects_log_only_weaken; [|apply captureAsset_events];
          intros ev [Ha _]; apply is_asset_not_extract, Ha ]).
    all: respects_leaf; repeat constructor.
Qed.

Lemma Capture_links_bases fuel item resp base doc sent w :
  in_int64 (MaxRedirect c) ->
  (Z.to_nat (MaxRedirect c) < fuel)%nat ->
  url_Parse E (url.String (http.URL sent)) = inl base ->
  wp (Capture_links E c fuel item resp base doc)
     (fun _ _ log => bases_follow E (Some sent) log) w.
Proof.
  intros HM Hfuel Hbase. unfold Capture_links, Capture_assets.
  repeat wp_step.
  all: try (cbn [app bases_follow]; eauto 10; fail).
  all: eapply wp_mono;
    [apply (wp_respects (log_only (fun e => is_extract_event e = false)));
     [apply Capture_assets_loop_no_extract
     |apply Capture_assets_loop_order; auto]|];
    cbn beta; intros _ w9 l9 [_ Hl9];
    cbn [app bases_follow]; rewrite ?app_nil_r;
    repeat (split; [eauto|]);
    apply bases_follow_no_extract, Hl9.
Qed.

Lemma Capture_document_no_extract item resp respPath w :
  wp (Capture_document E item resp respPath)
     (fun _ _ log =>
        Forall (fun e => is_extract_event e = false) log /\
        issued_requests log = []) w.
Proof.
  unfold Capture_document. repeat wp_step.
  all: split;
    [|rewrite ?issued_requests_app, ?issued_requests_deleteTempFile_log;
      reflexivity].
  all: rewrite ?Forall_app; repeat split; try (repeat constructor; fail).
  all: eapply Forall_impl;
    [apply deleteTempFile_log_fetch_events|apply is_fetch_not_extract].
Qed.

Lemma Capture_scrape_bases fuel item resp respPath r' sent w :
  in_int64 (MaxRedirect c) ->
  (Z.to_nat (MaxRedirect c) < fuel)%nat ->
  requests w !! http.Request_of resp = Some r' ->
  http.URL r' = http.URL sent ->
  wp (Capture_scrape E c fuel item resp respPath)
     (fun _ _ log => bases_follow E (Some sent) log) w.
Proof.
  intros HM Hfuel Hr' Hurl. unfold Capture_scrape. repeat wp_step.
  1: { apply bases_follow_no_extract. rewrite !Forall_app.
       repeat split; try (repeat constructor; fail).
       eapply Forall_impl;
         [apply deleteTempFile_log_fetch_events|apply is_fetch_not_extract]. }
  2: { apply bases_follow_no_extract. rewrite !Forall_app.
       repeat split; try (repeat constructor; fail).
       eapply Forall_impl;
         [apply deleteTempFile_log_fetch_events|apply is_fetch_not_extract]. }
  eapply wp_mono; [apply Capture_document_no_extract|].
  cbn beta. intros [doc|] w1 l1 [Hl1 Hi1]; repeat wp_step.
  2: { apply bases_follow_no_extract. rewrite !Forall_app.
       repeat split; try (repeat constructor; fail). exact Hl1. }
  eapply wp_mono;
    [eapply Capture_links_bases with (sent := sent); auto;
     rewrite <- Hurl; eassumption|].
  cbn beta. intros _ _ l2 Hl2.
  cbn [app bases_follow].
  apply bases_follow_app; [apply bases_follow_no_extract, Hl1|].
  unfold last_sent. rewrite Hi1. exact Hl2.
Qed.

(** X13. In a run of [Capture] every extraction, of outlinks or of
    assets, takes as its base the parsed URL of the request that was
    sent most recently before it: the last request of the page's fetch,
    after any redirections, and not the URL of the item. *)
Theorem Capture_extraction_base fuel item w :
  in_int64 (MaxRedirect c) ->
  in_int64 (frontier.Redirect item) ->
  (Z.to_nat (MaxRedirect c - frontier.Redirect item) < fuel)%nat ->
  (Z.to_nat (MaxRedirect c) < fuel)%nat ->
  (0 < frontier.Hop item -> is_Some (frontier.ParentItem item)) ->
  wp (Capture E c fuel item) (fun _ _ log => bases_follow E None log) w.
Proof.
  intros HM Hi Hfuel Hfuel' Hp. unfold Capture. apply wp_bind.
  eapply wp_mono;
    [apply (wp_respects (log_only (fun _ => False)));
     [apply Capture_request_silent
     |apply Capture_request_returns; exact Hp]|].
  cbn beta. intros [req|err] w1 l1 [[Hf1 Hreq] Hsilent]; repeat wp_step.
  all: assert (l1 = []) as -> by (destruct Hsilent as [|? ? []]; reflexivity).
  2: { exact I. }
  destruct Hreq as [r Hreq].
  eapply wp_mono;
    [apply wp_and;
     [apply wp_and; [apply executeGET_spec; eauto|]
     |eapply executeGET_last_request; eauto];
     eapply executeGET_followed_requests_bare; eauto|].
  cbn beta.
  intros [[[resp|] respPath] [err|]] w2 l2
         [[(Hres & _ & Hev) _] (sent & Hsent & Hresp)];
    try congruence; repeat wp_step.
  1, 3: apply bases_follow_no_extract; rewrite !Forall_app;
    repeat split; try (repeat constructor; fail);
    eapply Forall_impl; first
      [ exact Hev | apply deleteTempFile_log_fetch_events
      | apply is_fetch_not_extract ].
  destruct Hresp as (r' & Hr' & Hurl).
  eapply wp_mono; [eapply Capture_scrape_bases; eauto|].
  cbn beta. intros _ w3 l3 Hl3. repeat wp_step.
  cbn [app]. apply bases_follow_app.
  { apply bases_follow_no_extract.
    eapply Forall_impl; [exact Hev|apply is_fetch_not_extract]. }
  apply bases_follow_app.
  2: { apply bases_follow_no_extract. repeat constructor. }
  unfold last_sent. rewrite Hsent. exact Hl3.
Qed.

End ExtractionBase.

Lemma Capture_extraction_base_witness :
  wp (Capture Demo.env (Demo.crawl true true) 4 (Demo.seed "http://a.test/"))
     (fun _ _ log => bases_follow Demo.env None log) Demo.world0.
Proof.
  apply (Capture_extraction_base Demo.env (Demo.crawl true true) 4).
  - unfold in_int64. cbn. lia.
  - unfold in_int64. cbn. lia.
  - vm_compute. lia.
  - vm_compute. lia.
  - cbn. lia.
Defined.


(** ** Which response bodies the fetch executor closes *)

Lemma closed_bodies_app l1 l2 :
  closed_bodies (l1 ++ l2) = closed_bodies l1 ++ closed_bodies l2.
Proof. apply omap_app. Qed.

Lemma closed_bodies_deleteTempFile_log path w :
  closed_bodies (deleteTempFile_log path w) = [].
Proof. unfold deleteTempFile_log. repeat case_match; reflexivity. Qed.

Section BodyClose.

Variable E : Env.
Variable c : Crawl.

Lemma executeGET_hop_closes item req w :
  is_Some (requests w !! req) ->
  wp (executeGET_hop E c item req)
     (fun next _ l1 =>
        l1 <> [] /\
        match next with
        | Done res => closes_only_failed_write res l1
        | Recurse _ _ => closed_bodies l1 = []
        end) w.
Proof.
  intros [r Hr].
  unfold executeGET_hop, executeGET_fetch, executeGET_redirect.
  repeat wp_step.
  all: split; [discriminate|].
  all: unfold closes_only_failed_write;
    rewrite ?closed_bodies_app, ?closed_bodies_deleteTempFile_log.
  all: try reflexivity.
  all: try (left; reflexivity).
  right. cbn. auto 10.
Qed.

(** X14. [executeGET] closes a response body in one case only: when the
    WARC write of a response fails it closes the body of that response,
    as the last thing it does, and returns that response with the
    error. It never closes the body of a response whose redirection it
    follows, and a response it returns without an error, or with the
    error of a redirect target that does not parse, is returned open. *)
Theorem executeGET_body_close fuel : forall item req w,
  in_int64 (MaxRedirect c) ->
  in_int64 (frontier.Redirect item) ->
  is_Some (requests w !! req) ->
  (Z.to_nat (MaxRedirect c - frontier.Redirect item) < fuel)%nat ->
  wp (executeGET E c fuel item req)
     (fun res _ log => closes_only_failed_write res log) w.
Proof.
  induction fuel as [|fuel IH]; intros item req w HM Hi Hreq Hfuel; [lia|].
  cbn [executeGET]. apply wp_bind.
  eapply wp_mono.
  { apply wp_and; [apply executeGET_hop_returns; eauto
                  |apply executeGET_hop_closes, Hreq]. }
  intros [res|newItem newReq] w1 l1 [[_ Hnext] [Hne Hl1]]; cbn beta iota.
  - apply wp_ret. rewrite app_nil_r. exact Hl1.
  - destruct Hnext as (Hnew & Hlt & HR).
    rewrite wrap_int64_id in HR by (unfold in_int64 in *; lia).
    eapply wp_mono.
    { eapply IH; eauto.
      - rewrite HR. unfold in_int64 in *. lia.
      - rewrite HR. lia. }
    cbn beta. intros [[[resp|] respPath] [err|]] _ l2 Hl2;
      unfold closes_only_failed_write in *;
      rewrite closed_bodies_app, Hl1; cbn [app]; try exact Hl2.
    destruct Hl2 as [Hl2|(Hl2 & Hlast & Hin)]; [left; exact Hl2|right].
    split; [exact Hl2|]. split; [|apply in_or_app; right; exact Hin].
    destruct l2 as [|e l2]; [discriminate|].
    rewrite last_app_cons. exact Hlast.
Qed.

End BodyClose.

Lemma executeGET_body_close_witness :
  wp (executeGET Demo.env (Demo.crawl true false) 3
        (Demo.seed "http://full.test/") 0%nat)
     (fun res _ log => closes_only_failed_write res log)
     (Demo.world1 "http://full.test/").
Proof.
  apply (executeGET_body_close Demo.env (Demo.crawl true false) 3).
  - unfold in_int64. cbn. lia.
  - unfold in_int64. cbn. lia.
  - eexists. reflexivity.
  - vm_compute. lia.
Defined.
